(** * gitlab-ci-multi-runner: the job supervisor and its helpers

    A shallow embedding of the parts of
      - common/build.go            (AssignID, ProjectSlug, ProjectUniqueDir, Run)
      - commands/multi.go          (feedRunner, processRunner, processRunners,
                                    checkConfig, handleShutdown)
      - commands/helpers/archive.go (isChanged, Execute)
      - shells/abstract.go         (GenerateCommands)
    that the specification talks about, together with the properties the
    specification states about them.

    Conventions.
      - A Go [int] is a [Z] in the range [-2^63, 2^63); arithmetic on it is
        wrapped explicitly ([int_wrap]).
      - A Go [error] value is [option error]: [None] is [nil].
      - A Go [map[K]V] is a [gmap K V]; reading a missing key gives the zero
        value of [V].
      - Calls into collaborators whose code lives elsewhere (the network, the
        builds registry, executors, the shell writer, the operating system)
        are recorded as events in a log, in call order; what they answer is
        an input of the function under study.
      - [defer f(args)] evaluates [args] when the [defer] statement runs and
        calls [f] when the surrounding function returns, last deferred
        first. *)

From Stdlib Require Import ZArith List Bool String Ascii Lia DecimalString.
From Stdlib Require DecimalZ DecimalPos.
From stdpp Require Import base gmap strings list sorting.

Local Open Scope string_scope.
Local Open Scope list_scope.
Local Open Scope Z_scope.

(** ** Go runtime notions shared by all packages *)

Module Go.

(** [errors.New(msg)] / [fmt.Errorf(...)]: an error is its message. *)
Inductive error := mkError (msg : string).

Definition Error (e : error) : string := let 'mkError m := e in m.

#[global] Instance error_eq_dec : EqDecision error.
Proof. solve_decision. Defined.

(** 64-bit signed [int]. *)
Definition int_min : Z := - 2 ^ 63.
Definition int_max : Z := 2 ^ 63 - 1.
Definition int_wrap (z : Z) : Z := (z + 2 ^ 63) mod 2 ^ 64 - 2 ^ 63.

(** [i++] *)
Definition int_incr (i : Z) : Z := int_wrap (i + 1).

(** [time.Time] as an instant: nanoseconds on the time line.
    [t.Before(u)] is strict. *)
Definition Time := Z.
Definition Before (t u : Time) : bool := t <? u.

(** [fmt.Sprintf("%d", n)] *)
Definition Itoa (n : Z) : string := NilZero.string_of_int (Z.to_int n).

(** [strings.HasPrefix] *)
Fixpoint HasPrefix (s p : string) : bool :=
  match p, s with
  | EmptyString, _ => true
  | String c p', String d s' => if Ascii.eqb c d then HasPrefix s' p' else false
  | String _ _, EmptyString => false
  end.

(** [strings.Contains] *)
Fixpoint Contains (s sub : string) : bool :=
  HasPrefix s sub ||
  match s with
  | EmptyString => false
  | String _ s' => Contains s' sub
  end.

(** No byte of [s] is a dot. *)
Fixpoint dotless (s : string) : bool :=
  match s with
  | EmptyString => true
  | String c s' => negb (Ascii.eqb c ".") && dotless s'
  end.

(** [strings.HasSuffix] and [strings.TrimSuffix] *)
Definition HasSuffix (s suffix : string) : bool :=
  (String.length suffix <=? String.length s)%nat &&
  String.eqb (String.substring (String.length s - String.length suffix)
                               (String.length suffix) s) suffix.

Definition TrimSuffix (s suffix : string) : string :=
  if HasSuffix s suffix
  then String.substring 0 (String.length s - String.length suffix) s
  else s.

(** [strings.Split(s, "\n")]: the pieces between newlines; never empty. *)
Definition newline : ascii := Ascii.ascii_of_nat 10.

Fixpoint SplitLines (s : string) : list string :=
  match s with
  | EmptyString => [EmptyString]
  | String c s' =>
      if Ascii.eqb c newline then EmptyString :: SplitLines s'
      else match SplitLines s' with
           | l :: ls => String c l :: ls
           | [] => [String c EmptyString]
           end
  end.

End Go.

(** ** package common *)

Module Common.
Import Go.

(** [RunnerConfig]: the fields and method results the code below reads.
    [ShortDescription] and [UniqueID] hold what the methods of the same
    name return. *)
Record RunnerConfig := {
  Name : string;
  URL : string;
  Executor : string;
  ShortDescription : string;
  UniqueID : string;
}.

#[global] Instance RunnerConfig_eq_dec : EqDecision RunnerConfig.
Proof. solve_decision. Defined.

Record BuildVariable := {
  Key : string;
  Value : string;
  Public : bool;
  Internal : bool;
  File : bool;
}.

#[global] Instance BuildVariable_eq_dec : EqDecision BuildVariable.
Proof. solve_decision. Defined.

(** [GetBuildResponse]: what the network delivers for one job. *)
Record GetBuildResponse := {
  ID : Z;
  ProjectID : Z;
  Commands : string;
  RepoURL : string;
  Sha : string;
  BeforeSha : string;
  RefName : string;
  Variables : list BuildVariable;
}.

#[global] Instance GetBuildResponse_eq_dec : EqDecision GetBuildResponse.
Proof. solve_decision. Defined.

(** [Build] embeds a [GetBuildResponse] (field [Response] here). *)
Record Build := {
  Response : GetBuildResponse;
  BuildDir : string;
  Runner : RunnerConfig;
  GlobalID : Z;
  RunnerID : Z;
  ProjectRunnerID : Z;
}.

#[global] Instance Build_eq_dec : EqDecision Build.
Proof. solve_decision. Defined.

(** *** AssignID *)

(** [m[i]] on a [map[int]bool]. *)
Definition taken (m : gmap Z bool) (i : Z) : bool := default false (m !! i).

(** The first loop of [AssignID]: one iteration per other build, with its
    two [continue]s. *)
Definition mark (b : Build) (acc : gmap Z bool * gmap Z bool * gmap Z bool)
    (otherBuild : Build) : gmap Z bool * gmap Z bool * gmap Z bool :=
  let '(globals, runners, projectRunners) := acc in
  let globals := <[GlobalID otherBuild := true]> globals in
  if negb (bool_decide (ShortDescription (Runner otherBuild) = ShortDescription (Runner b)))
  then (globals, runners, projectRunners)
  else
    let runners := <[RunnerID otherBuild := true]> runners in
    if negb (bool_decide (ProjectID (Response otherBuild) = ProjectID (Response b)))
    then (globals, runners, projectRunners)
    else (globals, runners, <[ProjectRunnerID otherBuild := true]> projectRunners).

Definition markAll (b : Build) (otherBuilds : list Build) :=
  foldl (mark b) (∅, ∅, ∅) otherBuilds.

(** [for i := 0; ; i++ { if !m[i] { ...; break } }], started at [i]; the
    loop has no bound of its own, [fuel] counts its iterations. *)
Fixpoint firstFree (m : gmap Z bool) (fuel : nat) (i : Z) : option Z :=
  match fuel with
  | O => None
  | S fuel' => if negb (taken m i) then Some i else firstFree m fuel' (int_incr i)
  end.

Definition AssignID (fuel : nat) (b : Build) (otherBuilds : list Build) : option Build :=
  let '(globals, runners, projectRunners) := markAll b otherBuilds in
  match firstFree globals fuel 0 with
  | None => None
  | Some g =>
    match firstFree runners fuel 0 with
    | None => None
    | Some r =>
      match firstFree projectRunners fuel 0 with
      | None => None
      | Some p =>
          Some {| Response := Response b; BuildDir := BuildDir b; Runner := Runner b;
                  GlobalID := g; RunnerID := r; ProjectRunnerID := p |}
      end
    end
  end.

(** The three scopes, as the specification words them. *)
Definition usedGlobal (otherBuilds : list Build) (i : Z) : Prop :=
  ∃ o, o ∈ otherBuilds ∧ GlobalID o = i.

Definition usedRunner (b : Build) (otherBuilds : list Build) (i : Z) : Prop :=
  ∃ o, o ∈ otherBuilds ∧
       ShortDescription (Runner o) = ShortDescription (Runner b) ∧ RunnerID o = i.

Definition usedProjectRunner (b : Build) (otherBuilds : list Build) (i : Z) : Prop :=
  ∃ o, o ∈ otherBuilds ∧
       ShortDescription (Runner o) = ShortDescription (Runner b) ∧
       ProjectID (Response o) = ProjectID (Response b) ∧ ProjectRunnerID o = i.

(** [r] is the smallest non-negative integer outside [used]. *)
Definition smallestFree (used : Z → Prop) (r : Z) : Prop :=
  0 ≤ r ∧ ¬ used r ∧ ∀ j, 0 ≤ j < r → used j.

(** The invariant of the marking loop: after the builds in [others], each
    map marks exactly the identifiers used in its scope. *)
Definition marks_ok (b : Build) (others : list Build)
    (acc : gmap Z bool * gmap Z bool * gmap Z bool) : Prop :=
  let '(g, r, p) := acc in
  (∀ i, taken g i = true ↔ usedGlobal others i) ∧
  (∀ i, taken r i = true ↔ usedRunner b others i) ∧
  (∀ i, taken p i = true ↔ usedProjectRunner b others i) ∧
  (size g ≤ length others)%nat ∧ (size r ≤ length others)%nat ∧
  (size p ≤ length others)%nat.

(** *** ProjectSlug, ProjectUniqueDir *)

(** The two fields of [url.URL] that [ProjectSlug] reads. *)
Record url_URL := { Host : string; Path : string }.

Section ProjectDir.
(** [url.Parse], [filepath.Clean] and [filepath.Join] belong to Go's
    library; the code is studied for any behaviour of theirs. *)
Variable url_Parse : string → url_URL * option error.
Variable filepath_Clean : string → string.
Variable filepath_Join : list string → string.

Definition ProjectSlug (b : Build) : string * option error :=
  let '(url, err) := url_Parse (RepoURL (Response b)) in
  match err with
  | Some err => ("", Some err)
  | None =>
    if String.eqb (Host url) "" then
      ("", Some (mkError "only URI reference supported"))
    else
      let slug := Path url in
      let slug := TrimSuffix slug ".git" in
      let slug := filepath_Clean slug in
      if String.eqb slug "." then
        ("", Some (mkError "invalid path"))
      else if Contains slug ".." then
        ("", Some (mkError "it doesn't look like a valid path"))
      else (slug, None)
  end.

Definition ProjectUniqueDir (b : Build) (sharedDir : bool) : string :=
  let '(dir, err) := ProjectSlug b in
  let dir := match err with
             | Some _ => "project-" +:+ Itoa (ProjectID (Response b))
             | None => dir
             end in
  if sharedDir then
    filepath_Join [ShortDescription (Runner b); Itoa (ProjectRunnerID b); dir]
  else dir.

End ProjectDir.

(** *** Run *)

(** Calls that [Run] makes, in the order it makes them. *)
Inductive RunCall :=
| CallWriteString (data : string)
| CallSendBuildLog
| CallPrepare
| CallStart
| CallWait
| CallFinish (err : option error)
| CallCleanup.

#[global] Instance RunCall_eq_dec : EqDecision RunCall.
Proof. solve_decision. Defined.

(** The [Executor] interface: each method acts on the executor's own state
    [S]; [Prepare], [Start] and [Wait] also answer with an error or [nil]. *)
Record ExecutorT (S : Type) := {
  Prepare : Build → S → S * option error;
  Start : S → S * option error;
  Wait : S → S * option error;
  Finish : option error → S → S;
  Cleanup : S → S;
}.
Arguments Prepare {S}.
Arguments Start {S}.
Arguments Wait {S}.
Arguments Finish {S}.
Arguments Cleanup {S}.

(** [Run]: [NewExecutor] is the registry lookup, which yields an executor
    with its initial state or [nil]. *)
Definition Run {S : Type} (NewExecutor : string → option (ExecutorT S * S))
    (b : Build) : list RunCall * option S * option error :=
  match NewExecutor (Executor (Runner b)) with
  | None =>
      ([CallWriteString ("Executor not found: " +:+ Executor (Runner b)); CallSendBuildLog],
       None, Some (mkError "executor not found"))
  | Some (executor, s) =>
      let calls := [CallPrepare] in
      let '(s, err) := Prepare executor b s in
      let '(calls, s, err) :=
        match err with
        | None => let '(s, err) := Start executor s in (calls ++ [CallStart], s, err)
        | Some _ => (calls, s, err)
        end in
      let '(calls, s, err) :=
        match err with
        | None => let '(s, err) := Wait executor s in (calls ++ [CallWait], s, err)
        | Some _ => (calls, s, err)
        end in
      let s := Finish executor err s in
      let calls := calls ++ [CallFinish err] in
      (* executor != nil holds on this path *)
      let s := Cleanup executor s in
      let calls := calls ++ [CallCleanup] in
      (calls, Some s, err)
  end.

Definition isFinish (c : RunCall) : bool :=
  match c with CallFinish _ => true | _ => false end.

(** The first error among the answers of [Prepare], [Start] and [Wait]. *)
Definition firstError (p s w : option error) : option error :=
  match p with
  | Some e => Some e
  | None => match s with
            | Some e => Some e
            | None => w
            end
  end.

(** *** Variables and directories handed to the shell generator *)

Section Variables_.
(** [helpers.ToSlash], [RunnerConfig.GetVariables] and
    [BuildVariables.Expand] live outside these sources. *)
Variable ToSlash : string → string.
Variable Runner_GetVariables : RunnerConfig → list BuildVariable.
Variable Expand : list BuildVariable → list BuildVariable.

Definition FullProjectDir (b : Build) : string := ToSlash (BuildDir b).

Definition internalVariable (key value : string) : BuildVariable :=
  {| Key := key; Value := value; Public := true; Internal := true; File := false |}.

Definition GetDefaultVariables (b : Build) : list BuildVariable :=
  [ internalVariable "CI" "true";
    internalVariable "CI_BUILD_REF" (Sha (Response b));
    internalVariable "CI_BUILD_BEFORE_SHA" (BeforeSha (Response b));
    internalVariable "CI_BUILD_REF_NAME" (RefName (Response b));
    internalVariable "CI_BUILD_ID" (Itoa (ID (Response b)));
    internalVariable "CI_BUILD_REPO" (RepoURL (Response b));
    internalVariable "CI_PROJECT_ID" (Itoa (ProjectID (Response b)));
    internalVariable "CI_PROJECT_DIR" (FullProjectDir b);
    internalVariable "CI_SERVER" "yes";
    internalVariable "CI_SERVER_NAME" "GitLab CI";
    internalVariable "CI_SERVER_VERSION" "";
    internalVariable "CI_SERVER_REVISION" "";
    internalVariable "GITLAB_CI" "true" ].

Definition GetAllVariables (b : Build) : list BuildVariable :=
  let variables := Runner_GetVariables (Runner b) in
  let variables := variables ++ GetDefaultVariables b in
  let variables := variables ++ Variables (Response b) in
  Expand variables.

End Variables_.

(** *** Sample data *)

Definition runnerA : RunnerConfig :=
  {| Name := "a"; URL := "https://ci.example.com/"; Executor := "shell";
     ShortDescription := "aaaaaaaa"; UniqueID := "aaaaaaaa-1" |}.
Definition runnerB : RunnerConfig :=
  {| Name := "b"; URL := "https://ci.example.com/"; Executor := "docker";
     ShortDescription := "bbbbbbbb"; UniqueID := "bbbbbbbb-2" |}.
Definition mkResponse (id project : Z) (commands : string) : GetBuildResponse :=
  {| ID := id; ProjectID := project; Commands := commands;
     RepoURL := "https://gitlab.example.com/group/repo.git";
     Sha := "0123456789abcdef"; BeforeSha := "0000000000000000";
     RefName := "master"; Variables := [] |}.
Definition mkBuild (id project : Z) (r : RunnerConfig) (g rn pr : Z) : Build :=
  {| Response := mkResponse id project ""; BuildDir := "/builds/group/repo"; Runner := r;
     GlobalID := g; RunnerID := rn; ProjectRunnerID := pr |}.

(** An executor whose three fallible steps answer as given; its state is
    its own record of the calls it received, in order. *)
Definition scriptedExecutor (p s w : option error) : ExecutorT (list RunCall) :=
  {| Prepare := λ _ l, (l ++ [CallPrepare], p);
     Start := λ l, (l ++ [CallStart], s);
     Wait := λ l, (l ++ [CallWait], w);
     Finish := λ err l, l ++ [CallFinish err];
     Cleanup := λ l, l ++ [CallCleanup] |}.

(** *** ProjectUniqueName *)

Definition ProjectUniqueName (b : Build) : string :=
  "runner-" +:+ ShortDescription (Runner b)
  +:+ "-project-" +:+ Itoa (ProjectID (Response b))
  +:+ "-concurrent-" +:+ Itoa (ProjectRunnerID b).

(** No byte of [s] is [c]. *)
Fixpoint lacks (c : ascii) (s : string) : bool :=
  match s with
  | EmptyString => true
  | String d s' => negb (Ascii.eqb d c) && lacks c s'
  end.

(** *** The scopes of AssignID, as tests on the other builds *)

Definition sameRunner (b otherBuild : Build) : bool :=
  bool_decide (ShortDescription (Runner otherBuild) = ShortDescription (Runner b)).

Definition sameProject (b otherBuild : Build) : bool :=
  sameRunner b otherBuild
  && bool_decide (ProjectID (Response otherBuild) = ProjectID (Response b)).

(** The sizes of the three maps of the marking loop stay within the number
    of builds of their scope. *)
Definition marks_small (b : Build) (others : list Build)
    (acc : gmap Z bool * gmap Z bool * gmap Z bool) : Prop :=
  let '(g, r, p) := acc in
  (size g ≤ length others)%nat ∧
  (size r ≤ length (List.filter (sameRunner b) others))%nat ∧
  (size p ≤ length (List.filter (sameProject b) others))%nat.

(** *** The build log *)

(** [strings.SplitAfter(s, "\n")]: the pieces, each with its newline. *)
Fixpoint SplitAfterLines (s : string) : list string :=
  match s with
  | EmptyString => [EmptyString]
  | String c s' =>
      if Ascii.eqb c newline then String c EmptyString :: SplitAfterLines s'
      else match SplitAfterLines s' with
           | l :: ls => String c l :: ls
           | [] => [String c EmptyString]
           end
  end.

(** The log of a build: the bytes of [buildLog], and how often the clock
    has been read for a timestamp. *)
Record LogState := {
  buildLog : string;
  clockReads : nat;
}.

(** [utf8.AppendRune]: the UTF-8 encoding of a rune ([string(r)]), with
    the replacement character for surrogates and values out of range. *)
Definition byte (n : Z) : ascii := ascii_of_N (Z.to_N (n mod 256)).

Definition utf8_encode (r : Z) : string :=
  let i := r mod 2 ^ 32 in
  if i <=? 127 then String (byte i) EmptyString
  else if i <=? 2047 then
    String (byte (192 + i / 64)) (String (byte (128 + i mod 64)) EmptyString)
  else
    let i := if (1114111 <? i) || ((55296 <=? i) && (i <=? 57343)) then 65533 else i in
    if i <=? 65535 then
      String (byte (224 + i / 4096))
        (String (byte (128 + (i / 64) mod 64)) (String (byte (128 + i mod 64)) EmptyString))
    else
      String (byte (240 + i / 262144))
        (String (byte (128 + (i / 4096) mod 64))
           (String (byte (128 + (i / 64) mod 64)) (String (byte (128 + i mod 64)) EmptyString))).

Section BuildLog.
(** [helpers.ANSI_BOLD_CYAN] and [helpers.ANSI_RESET] are outside these
    sources; [elapsed k] is [fmt.Sprintf("%.1f", ...)] of the time since the
    start of the build at the [k]-th reading of the clock. *)
Variable ANSI_BOLD_CYAN ANSI_RESET : string.
Variable elapsed : nat → string.

(** [bytes.Buffer.WriteString] and [WriteRune]: they append, and return the
    number of bytes written and a nil error. *)
Definition Buffer_WriteString (l : LogState) (data : string) : LogState * Z * option error :=
  ({| buildLog := buildLog l +:+ data; clockReads := clockReads l |},
   Z.of_nat (String.length data), None).

Definition Buffer_WriteRune (l : LogState) (r : Z) : LogState * Z * option error :=
  Buffer_WriteString l (if r mod 2 ^ 32 <? 128 then String (byte r) EmptyString
                        else utf8_encode r).

Definition timestamp (k : nat) : string :=
  ANSI_BOLD_CYAN +:+ elapsed k +:+ "] " +:+ ANSI_RESET.

Definition writeTimestamp (l : LogState) : LogState * Z * option error :=
  Buffer_WriteString {| buildLog := buildLog l; clockReads := S (clockReads l) |}
                     (timestamp (clockReads l)).

(** The loop of [WriteString] over the pieces of the data, from the running
    count [n]; an error ends it. *)
Fixpoint writeLines (l : LogState) (n : Z) (lines : list string)
    : LogState * Z * option error :=
  match lines with
  | [] => (l, n, None)
  | line :: rest =>
      let '(l, nn, err) := Buffer_WriteString l line in
      match err with
      | Some err => (l, n, Some err)
      | None =>
          let n := int_wrap (n + nn) in
          if HasSuffix line (String newline EmptyString) then
            let '(l, nn, err) := writeTimestamp l in
            match err with
            | Some err => (l, n, Some err)
            | None => writeLines l (int_wrap (n + nn)) rest
            end
          else writeLines l n rest
      end
  end.

Definition WriteString (l : LogState) (data : string) : LogState * Z * option error :=
  writeLines l 0 (SplitAfterLines data).

Definition WriteRune (l : LogState) (r : Z) : LogState * Z * option error :=
  let '(l, n, err) := Buffer_WriteRune l r in
  match err with
  | None =>
      if r =? 10 then
        let '(l, nn, err) := writeTimestamp l in (l, int_wrap (n + nn), err)
      else (l, n, err)
  | Some _ => (l, n, err)
  end.

(** The data with a timestamp after each of its newlines, byte by byte;
    [k] is the number of clock readings so far. *)
Fixpoint stamped (k : nat) (data : string) : string :=
  match data with
  | EmptyString => EmptyString
  | String c data' =>
      if Ascii.eqb c newline then String c (timestamp k +:+ stamped (S k) data')
      else String c (stamped k data')
  end.

Fixpoint newlines (data : string) : nat :=
  match data with
  | EmptyString => O
  | String c data' => (if Ascii.eqb c newline then 1 else 0) + newlines data'
  end.

End BuildLog.

End Common.

(** ** package commands (multi.go) *)

Module Commands.
Import Go Common.

(** Signals the process is notified of.  [os.Interrupt] is [SIGINT] and
    [os.Kill] is [SIGKILL]. *)
Inductive Signal := SIGHUP | SIGINT | SIGQUIT | SIGKILL | SIGTERM.

#[global] Instance Signal_eq_dec : EqDecision Signal.
Proof. solve_decision. Defined.

(** [%v] of a signal: its [String()] (Go's table for Unix), [<nil>] for a
    nil interface. *)
Definition Signal_String (s : Signal) : string :=
  match s with
  | SIGHUP => "hangup"
  | SIGINT => "interrupt"
  | SIGQUIT => "quit"
  | SIGKILL => "killed"
  | SIGTERM => "terminated"
  end.

Definition fmt_v (s : option Signal) : string :=
  match s with
  | Some s => Signal_String s
  | None => "<nil>"
  end.

(** [ExecutorData]: an opaque token. *)
Definition ExecutorData := Z.

(** Modelled from the spec: the [ExecutorProvider] interface is declared
    outside these sources.  Section 3 of the specification gives it
    [Acquire(RunnerConfig) -> (ExecutorData, error)], [Release], [Create]
    and the advisory check [CanCreate()].  [kind] is the key under which
    the provider is registered; [CanCreate] and [Acquire] hold what the
    methods answer. *)
Record ExecutorProvider := {
  kind : string;
  CanCreate : bool;
  Acquire : RunnerConfig → ExecutorData * option error;
}.

(** [runnerAcquire], the slot: the embedded [RunnerConfig] is the field
    [runner_config]. *)
Record runnerAcquire := {
  runner_config : RunnerConfig;
  provider : ExecutorProvider;
  data : ExecutorData;
}.

(** Calls to collaborators and channel operations, as they happen. *)
Inductive Event :=
| EvCanCreate (kind : string)
| EvAcquire (kind : string) (runner : RunnerConfig)
| EvRelease (kind : string) (runner : RunnerConfig) (data : ExecutorData)
| EvSend (kind : string) (runner : RunnerConfig) (data : ExecutorData)
| EvRecv (kind : string) (runner : RunnerConfig) (data : ExecutorData)
| EvBuildsAcquire (runner : RunnerConfig)
| EvBuildsRelease (runner : RunnerConfig)
| EvGetBuild (runner : RunnerConfig)
| EvMakeHealthy (id : string) (healthy : bool)
| EvProcessBuild (runner : RunnerConfig) (buildID : Z)
| EvTraceFail (err : option error)
| EvAddBuild (b : Build)
| EvRemoveBuild (b : Build)
| EvBuildRun (b : Build) (data : ExecutorData)
| EvGC
| EvStopWorker
| EvGo (fn : string)
| EvStat (file : string)
| EvLoadConfig
| EvLog (level msg : string).

#[global] Instance Event_eq_dec : EqDecision Event.
Proof. solve_decision. Defined.

(** [func (r *runnerAcquire) Release()] *)
Definition Release (r : runnerAcquire) : list Event :=
  [EvRelease (kind (provider r)) (runner_config r) (data r)].

(** *** The feeder *)

(** [feedRunner]: the log, and the slot sent on [runners] if one is.  The
    send is the last thing the function does; it completes when a worker
    receives the slot. *)
Definition feedRunner (isHealthy : string → bool)
    (GetExecutor : string → option ExecutorProvider)
    (runner : RunnerConfig) : list Event * option runnerAcquire :=
  if negb (isHealthy (UniqueID runner)) then ([], None)
  else
    match GetExecutor (Executor runner) with
    | None => ([], None)
    | Some provider =>
        let '(data, err) := Acquire provider runner in
        match err with
        | Some err =>
            ([EvAcquire (kind provider) runner;
              EvLog "warning" "Failed to update executor"], None)
        | None =>
            let slot := {| runner_config := runner; provider := provider; data := data |} in
            ([EvAcquire (kind provider) runner;
              EvSend (kind provider) runner data], Some slot)
        end
    end.

(** One pass of the loop body of [feedRunners] over [config.Runners]. *)
Definition feedRunners_pass (isHealthy : string → bool)
    (GetExecutor : string → option ExecutorProvider)
    (Runners : list RunnerConfig) : list Event :=
  flat_map (λ runner, fst (feedRunner isHealthy GetExecutor runner)) Runners.

(** *** The job driver *)

(** What one call of [processRunner] meets: the answer of
    [buildsHelper.acquire], of [network.GetBuild], and of [build.Run]. *)
Record JobEnv := {
  buildsHelper_acquire : bool;
  network_GetBuild : option GetBuildResponse * bool;
  build_Run : option error;
}.

(** Returning from a function: the deferred calls run, last deferred
    first ([defers] is kept in that order). *)
Definition leave (log : list Event) (defers : list (list Event))
    (err : option error) : list Event * option error :=
  (log ++ concat defers, err).

Section Driver.
(** [common.NewBuild] is not in these sources; the driver is studied for
    any constructor. *)
Variable NewBuild : GetBuildResponse → RunnerConfig → Build.

Definition processRunner (env : JobEnv) (id : Z) (runner : runnerAcquire)
    : list Event * option error :=
  let err : option error := None in                        (* named result *)
  let defers := [Release runner] in                         (* defer runner.Release() *)
  let log := [EvBuildsAcquire (runner_config runner)] in
  if negb (buildsHelper_acquire env) then leave log defers err
  else
    let defers := [EvBuildsRelease (runner_config runner)] :: defers in
    let '(buildData, healthy) := network_GetBuild env in
    let log := log ++ [EvGetBuild (runner_config runner);
                       EvMakeHealthy (UniqueID (runner_config runner)) healthy] in
    match buildData with
    | None => leave log defers err
    | Some buildData =>
        let log := log ++ [EvProcessBuild (runner_config runner) (ID buildData)] in
        let defers := [EvTraceFail err] :: defers in        (* defer trace.Fail(err) *)
        let build := NewBuild buildData (runner_config runner) in
        let log := log ++ [EvAddBuild build] in
        let defers := [EvRemoveBuild build] :: defers in    (* defer removeBuild(build) *)
        let log := log ++ [EvBuildRun build (data runner)] in
        let err := build_Run env in                          (* return build.Run(...) *)
        leave log defers err
    end.

(** *** The worker *)

(** What one iteration of the loop of [processRunners] meets: the value of
    [mr.stopSignal] at the loop head; the slot, if any, that the feeder is
    blocked sending on [runners] (with what its job would meet); whether a
    value is being sent on [stopWorker]; and the runtime's pick when both
    cases of the [select] are ready. *)
Record Tick := {
  stopSignal_seen : option Signal;
  offered : option (runnerAcquire * JobEnv);
  stopWorker_ready : bool;
  pick_stop : bool;
}.

Inductive Selected :=
| GotRunner (runner : runnerAcquire) (env : JobEnv)
| GotStop
| Blocked.

Definition select_worker (t : Tick) : Selected :=
  match offered t, stopWorker_ready t with
  | Some (runner, env), true => if pick_stop t then GotStop else GotRunner runner env
  | Some (runner, env), false => GotRunner runner env
  | None, true => GotStop
  | None, false => Blocked
  end.

(** [processRunners]: the log of one worker over the iterations it is
    given.  When [stopSignal] is set the loop is left and the worker waits
    for its [stopWorker]; a worker with no iteration left, or blocked in
    its [select], does nothing more. *)
Fixpoint processRunners (id : Z) (ticks : list Tick) : list Event :=
  match ticks with
  | [] => []
  | t :: rest =>
      match stopSignal_seen t with
      | Some _ => [EvStopWorker]
      | None =>
          match select_worker t with
          | GotRunner runner env =>
              EvRecv (kind (provider runner)) (runner_config runner) (data runner)
              :: fst (processRunner env id runner) ++ [EvGC] ++ processRunners id rest
          | GotStop => [EvStopWorker]
          | Blocked => []
          end
      end
  end.

End Driver.

(** How often the slot [r] is released, received in a log. *)
Definition count (e : Event) (log : list Event) : nat :=
  length (List.filter (λ e', bool_decide (e' = e)) log).

Definition releases (r : runnerAcquire) (log : list Event) : nat :=
  count (EvRelease (kind (provider r)) (runner_config r) (data r)) log.

Definition receives (r : runnerAcquire) (log : list Event) : nat :=
  count (EvRecv (kind (provider r)) (runner_config r) (data r)) log.

(** *** Configuration *)

Record Config := {
  Concurrent : Z;
  config_User : string;
  ModTime : Time;
  Runners : list RunnerConfig;
}.

#[global] Instance Config_eq_dec : EqDecision Config.
Proof. solve_decision. Defined.

(** The fields of [RunCommand] that the code below reads or writes;
    [healthy] maps a runner to the time of its last failure. *)
Record RunCommand := {
  ConfigFile : string;
  config : Config;
  User : string;
  healthy : gmap string Time;
  stopSignal : option Signal;
}.

Definition set_config (c : Config) (mr : RunCommand) : RunCommand :=
  {| ConfigFile := ConfigFile mr; config := c; User := User mr;
     healthy := healthy mr; stopSignal := stopSignal mr |}.
Definition set_healthy (h : gmap string Time) (mr : RunCommand) : RunCommand :=
  {| ConfigFile := ConfigFile mr; config := config mr; User := User mr;
     healthy := h; stopSignal := stopSignal mr |}.
Definition set_stopSignal (s : option Signal) (mr : RunCommand) : RunCommand :=
  {| ConfigFile := ConfigFile mr; config := config mr; User := User mr;
     healthy := healthy mr; stopSignal := s |}.
Definition set_User (u : string) (c : Config) : Config :=
  {| Concurrent := Concurrent c; config_User := u; ModTime := ModTime c;
     Runners := Runners c |}.
Definition set_ModTime (t : Time) (c : Config) : Config :=
  {| Concurrent := Concurrent c; config_User := config_User c; ModTime := t;
     Runners := Runners c |}.

Section Reload.
(** [os.Stat] gives the modification time of a file or an error.
    [configOptions.loadConfig], the loader embedded in [RunCommand], is not
    in these sources: [checkConfig] is studied for any loader. *)
Variable os_Stat : string → Time * option error.
Variable configOptions_loadConfig : RunCommand → RunCommand * option error.

(** [func (mr *RunCommand) loadConfig() error] *)
Definition loadConfig (mr : RunCommand) : RunCommand * list Event * option error :=
  let '(mr, err) := configOptions_loadConfig mr in
  match err with
  | Some err => (mr, [EvLoadConfig], Some err)
  | None =>
      let mr := if negb (String.eqb (User mr) "")
                then set_config (set_User (User mr) (config mr)) mr
                else mr in
      let mr := set_healthy ∅ mr in
      (mr, [EvLoadConfig; EvLog "info" "Config loaded:"], None)
  end.

(** [func (mr *RunCommand) checkConfig() (err error)] *)
Definition checkConfig (mr : RunCommand) : RunCommand * list Event * option error :=
  let '(info_ModTime, err) := os_Stat (ConfigFile mr) in
  match err with
  | Some err => (mr, [EvStat (ConfigFile mr)], Some err)
  | None =>
      if negb (Before (ModTime (config mr)) info_ModTime) then
        (mr, [EvStat (ConfigFile mr)], None)
      else
        let '(mr, log, err) := loadConfig mr in
        match err with
        | Some err =>
            (* don't reload the same file *)
            let mr := set_config (set_ModTime info_ModTime (config mr)) mr in
            (mr, EvStat (ConfigFile mr) :: log ++ [EvLog "error" "Failed to load config"],
             Some err)
        | None => (mr, EvStat (ConfigFile mr) :: log, None)
        end
  end.

End Reload.

(** Modelled from the spec: [configOptions.loadConfig] is not in these
    sources.  Section 4.6: parse into a fresh structure; if parsing fails,
    retain the prior config; on success replace the active config.  [parse]
    is the configuration file parser. *)
Definition loadFresh (parse : string → Config * option error) (mr : RunCommand)
    : RunCommand * option error :=
  let '(fresh, err) := parse (ConfigFile mr) in
  match err with
  | Some err => (mr, Some err)
  | None => (set_config fresh mr, None)
  end.

(** Whether a log records a call of [loadConfig]. *)
Definition reloaded (log : list Event) : bool :=
  bool_decide (EvLoadConfig ∈ log).

(** *** Shutdown *)

(** What wakes the [select] of [handleGracefulShutdown]. *)
Inductive GracefulWakeup := GSignal (s : Signal) | GRunFinished.

(** What wakes the [select] of [handleShutdown] first: a value on
    [stopSignals], the timer of [ShutdownTimeout] seconds, or a value on
    [runFinished]. *)
Inductive Wakeup := WSignal (s : Signal) | WTimeout | WRunFinished.

(** [abortAllBuilds]: the pump hands [mr.stopSignal] to each of the [n]
    receivers on [abortBuilds] that turn up. *)
Definition abortAllBuilds (mr : RunCommand) (n : nat) : list (option Signal) :=
  repeat (stopSignal mr) n.

(** [handleGracefulShutdown]; the second component is [None] while the loop
    is still waiting (no wake-up left). *)
Fixpoint handleGracefulShutdown (mr : RunCommand) (wakeups : list GracefulWakeup)
    : RunCommand * option (option error) :=
  if bool_decide (stopSignal mr = Some SIGQUIT) then
    match wakeups with
    | [] => (mr, None)
    | GSignal s :: wakeups' => handleGracefulShutdown (set_stopSignal (Some s) mr) wakeups'
    | GRunFinished :: _ => (mr, Some None)
    end
  else (mr, Some (Some (mkError ("received: " +:+ fmt_v (stopSignal mr))))).

(** [handleShutdown]: every case of the [select] returns, so the loop body
    runs once. *)
Definition handleShutdown (mr : RunCommand) (first : Wakeup)
    : RunCommand * list Event * option error :=
  let log := [EvLog "warning" ("Requested service stop: " +:+ fmt_v (stopSignal mr));
              EvGo "abortAllBuilds"] in
  match first with
  | WSignal s =>
      let mr := set_stopSignal (Some s) mr in
      (mr, log, Some (mkError ("forced exit: " +:+ fmt_v (stopSignal mr))))
  | WTimeout => (mr, log, Some (mkError "shutdown timedout"))
  | WRunFinished => (mr, log, None)
  end.

(** [Stop]; [None] while the graceful phase is still waiting. *)
Definition Stop (mr : RunCommand) (graceful : list GracefulWakeup) (first : Wakeup)
    : RunCommand * list Event * option (option error) :=
  let log := [EvGo "interruptRun"] in
  match handleGracefulShutdown mr graceful with
  | (mr, None) => (mr, log, None)
  | (mr, Some None) => (mr, log, Some None)
  | (mr, Some (Some _)) =>
      let '(mr, log', err) := handleShutdown mr first in
      (mr, log ++ log', Some err)
  end.

(** *** Sample data *)

Definition sampleNewBuild (buildData : GetBuildResponse) (runner : RunnerConfig) : Build :=
  {| Response := buildData; BuildDir := ""; Runner := runner;
     GlobalID := 0; RunnerID := 0; ProjectRunnerID := 0 |}.

Definition shellProvider (canCreate : bool) : ExecutorProvider :=
  {| kind := "shell"; CanCreate := canCreate; Acquire := λ _, (41, None) |}.

Definition registry (canCreate : bool) (name : string) : option ExecutorProvider :=
  if String.eqb name "shell" then Some (shellProvider canCreate) else None.

Definition slotA : runnerAcquire :=
  {| runner_config := runnerA; provider := shellProvider true; data := 41 |}.

Definition jobFails : JobEnv :=
  {| buildsHelper_acquire := true;
     network_GetBuild := (Some (mkResponse 5 7 "make test"), true);
     build_Run := Some (mkError "exit status 1") |}.

Definition jobIdle : JobEnv :=
  {| buildsHelper_acquire := true; network_GetBuild := (None, true); build_Run := None |}.

(** The feeder offers [slotA] while a value is ready on [stopWorker], and
    the [select] takes the latter. *)
Definition stoppedFirst : Tick :=
  {| stopSignal_seen := None; offered := Some (slotA, jobIdle);
     stopWorker_ready := true; pick_stop := true |}.

(** The feeder offers [slotA] and the worker takes it. *)
Definition served : Tick :=
  {| stopSignal_seen := None; offered := Some (slotA, jobIdle);
     stopWorker_ready := false; pick_stop := false |}.

Definition sampleConfig : Config :=
  {| Concurrent := 2; config_User := ""; ModTime := 100; Runners := [runnerA; runnerB] |}.

Definition sampleCommand : RunCommand :=
  {| ConfigFile := "/etc/gitlab-runner/config.toml"; config := sampleConfig;
     User := ""; healthy := ∅; stopSignal := None |}.

(** *** The worker pool supervisor *)

(** What a [select] of [updateWorkers] does: its send goes through, or a
    value (possibly a nil signal) is received from [runSignal]. *)
Inductive WorkerSelect := SendDone | RunSignal (signaled : option Signal).

(** Sends of the supervisor on [stopWorker] and [startWorker]. *)
Inductive PoolSend := SendStop | SendStart (id : Z).

#[global] Instance PoolSend_eq_dec : EqDecision PoolSend.
Proof. solve_decision. Defined.

(** How a loop of [updateWorkers] ends: its condition fails, it returns
    the value received from [runSignal], or it is still blocked in its
    [select] when the schedule ends. *)
Inductive LoopEnd := LoopDone | LoopReturn (signaled : option Signal) | LoopBlocked.

(** [for *currentWorkers > buildLimit { select {...}; *currentWorkers-- }] *)
Fixpoint retire (buildLimit currentWorkers : Z) (sched : list WorkerSelect)
    : Z * list PoolSend * list WorkerSelect * LoopEnd :=
  if currentWorkers >? buildLimit then
    match sched with
    | [] => (currentWorkers, [], [], LoopBlocked)
    | SendDone :: sched' =>
        let '(c, sends, rest, e) := retire buildLimit (int_wrap (currentWorkers - 1)) sched' in
        (c, SendStop :: sends, rest, e)
    | RunSignal signaled :: sched' => (currentWorkers, [], sched', LoopReturn signaled)
    end
  else (currentWorkers, [], sched, LoopDone).

(** [for *currentWorkers < buildLimit { select {...}; *currentWorkers++;
    *workerIndex++ }] *)
Fixpoint spawn (buildLimit currentWorkers workerIndex : Z) (sched : list WorkerSelect)
    : Z * Z * list PoolSend * list WorkerSelect * LoopEnd :=
  if currentWorkers <? buildLimit then
    match sched with
    | [] => (currentWorkers, workerIndex, [], [], LoopBlocked)
    | SendDone :: sched' =>
        let '(c, i, sends, rest, e) :=
          spawn buildLimit (int_incr currentWorkers) (int_incr workerIndex) sched' in
        (c, i, SendStart workerIndex :: sends, rest, e)
    | RunSignal signaled :: sched' =>
        (currentWorkers, workerIndex, [], sched', LoopReturn signaled)
    end
  else (currentWorkers, workerIndex, [], sched, LoopDone).

(** [updateWorkers]: the new [*currentWorkers] and [*workerIndex], the sends
    made, the schedule left, and the value returned ([None] while blocked). *)
Definition updateWorkers (mr : RunCommand) (currentWorkers workerIndex : Z)
    (sched : list WorkerSelect)
    : Z * Z * list PoolSend * list WorkerSelect * option (option Signal) :=
  let buildLimit := Concurrent (config mr) in
  let '(c, stops, sched, e) := retire buildLimit currentWorkers sched in
  match e with
  | LoopBlocked => (c, workerIndex, stops, sched, None)
  | LoopReturn signaled => (c, workerIndex, stops, sched, Some signaled)
  | LoopDone =>
      let '(c, i, starts, sched, e) := spawn buildLimit c workerIndex sched in
      match e with
      | LoopBlocked => (c, i, stops ++ starts, sched, None)
      | LoopReturn signaled => (c, i, stops ++ starts, sched, Some signaled)
      | LoopDone => (c, i, stops ++ starts, sched, Some None)
      end
  end.

Definition isStop (s : PoolSend) : bool :=
  match s with SendStop => true | SendStart _ => false end.
Definition isStart (s : PoolSend) : bool :=
  match s with SendStart _ => true | SendStop => false end.
Definition startedId (s : PoolSend) : option Z :=
  match s with SendStart id => Some id | SendStop => None end.

(** Numbers of sends on [startWorker] and on [stopWorker]. *)
Definition starts (sends : list PoolSend) : Z :=
  Z.of_nat (length (List.filter isStart sends)).
Definition stops (sends : list PoolSend) : Z :=
  Z.of_nat (length (List.filter isStop sends)).

(** What wakes the [select] of [updateConfig]: the timer of
    [ReloadConfigInterval] seconds, a value on [reloadSignal], or a value
    on [runSignal]. *)
Inductive ConfigWake := CWTimer | CWReload | CWRunSignal (signaled : option Signal).

Section Supervisor.
Variable os_Stat : string → Time * option error.
Variable configOptions_loadConfig : RunCommand → RunCommand * option error.

(** [updateConfig] *)
Definition updateConfig (mr : RunCommand) (wake : ConfigWake)
    : RunCommand * list Event * option Signal :=
  match wake with
  | CWTimer =>
      let '(mr, log, err) := checkConfig os_Stat configOptions_loadConfig mr in
      match err with
      | Some _ => (mr, log ++ [EvLog "error" "Failed to load config"], None)
      | None => (mr, log, None)
      end
  | CWReload =>
      let '(mr, log, err) := loadConfig configOptions_loadConfig mr in
      match err with
      | Some _ => (mr, log ++ [EvLog "error" "Failed to load config"], None)
      | None => (mr, log, None)
      end
  | CWRunSignal signaled => (mr, [], signaled)
  end.

(** One turn of the main loop of [Run]: the value of [mr.stopSignal] read
    at the loop head, what the selects of [updateWorkers] do, and what
    wakes [updateConfig]. *)
Record Round := {
  seen : option Signal;
  selects : list WorkerSelect;
  wake : ConfigWake;
}.

(** The main loop of [Run]: the state when the loop is left, with the sends
    made; the last component is [false] when the rounds given end with the
    loop still running or blocked. *)
Fixpoint Run_loop (mr : RunCommand) (currentWorkers workerIndex : Z) (rounds : list Round)
    : RunCommand * Z * Z * list PoolSend * bool :=
  match rounds with
  | [] => (mr, currentWorkers, workerIndex, [], false)
  | r :: rounds' =>
      match seen r with
      | Some _ => (mr, currentWorkers, workerIndex, [], true)
      | None =>
          let '(c, i, sends, _, signaled) :=
            updateWorkers mr currentWorkers workerIndex (selects r) in
          match signaled with
          | None => (mr, c, i, sends, false)
          | Some (Some _) => (mr, c, i, sends, true)
          | Some None =>
              let '(mr, _, signaled) := updateConfig mr (wake r) in
              match signaled with
              | Some _ => (mr, c, i, sends, true)
              | None =>
                  let '(mr, c, i, sends', exited) := Run_loop mr c i rounds' in
                  (mr, c, i, sends ++ sends', exited)
              end
          end
      end
  end.

(** [for currentWorkers > 0 { stopWorker <- true; currentWorkers-- }], with
    [takers] workers there to receive: the sends made and the count left. *)
Fixpoint stopAll (currentWorkers : Z) (takers : nat) : Z * list PoolSend :=
  if currentWorkers >? 0 then
    match takers with
    | O => (currentWorkers, [])
    | S takers' =>
        let '(c, sends) := stopAll (int_wrap (currentWorkers - 1)) takers' in
        (c, SendStop :: sends)
    end
  else (currentWorkers, []).

(** [Run], from the creation of the channels on, with [currentWorkers] and
    [workerIndex] starting at 0: all sends on [startWorker] and
    [stopWorker], and whether [runFinished] was sent. *)
Definition Run (mr : RunCommand) (rounds : list Round) (takers : nat)
    : list PoolSend * bool :=
  let '(mr, c, i, sends, exited) := Run_loop mr 0 0 rounds in
  if exited then
    let '(c, stops) := stopAll c takers in
    (sends ++ stops, negb (c >? 0))
  else (sends, false).

End Supervisor.

(** The runners for which an [Acquire] is recorded, and the slots sent. *)
Definition acquiredRunner (e : Event) : option RunnerConfig :=
  match e with EvAcquire _ runner => Some runner | _ => None end.
Definition sentRunner (e : Event) : option RunnerConfig :=
  match e with EvSend _ runner _ => Some runner | _ => None end.
Definition isRelease (e : Event) : bool :=
  match e with EvRelease _ _ _ => true | _ => false end.

End Commands.

(** ** package commands_helpers (archive.go) *)

Module CommandsHelpers.
Import Go.

(** The bits of [os.FileMode] that say what kind of file it is, and their
    union [os.ModeType]. *)
Definition ModeDir : Z := 2 ^ 31.
Definition ModeSymlink : Z := 2 ^ 27.
Definition ModeDevice : Z := 2 ^ 26.
Definition ModeNamedPipe : Z := 2 ^ 25.
Definition ModeSocket : Z := 2 ^ 24.
Definition ModeType : Z :=
  Z.lor ModeDir (Z.lor ModeSymlink (Z.lor ModeNamedPipe (Z.lor ModeSocket ModeDevice))).

(** What the code reads of an [os.FileInfo]; [Mode] is the 32-bit
    [os.FileMode]. *)
Record FileInfo := {
  ModTime : Time;
  Size : Z;
  Mode : Z;
}.

(** [FileMode.IsRegular]: no type bit is set. *)
Definition IsRegular (info : FileInfo) : bool :=
  Z.land (Mode info) ModeType =? 0.

Record ArchiveCommand := {
  Paths : list string;
  Untracked : bool;
  File : string;
  Verbose : bool;
  List : bool;
  NoProgress : bool;
  wd : string;
  files : gmap string FileInfo;
  totalSize : Z;
}.

Definition set_flags (list noProgress : bool) (c : ArchiveCommand) : ArchiveCommand :=
  {| Paths := Paths c; Untracked := Untracked c; File := File c; Verbose := Verbose c;
     List := list; NoProgress := noProgress; wd := wd c; files := files c;
     totalSize := totalSize c |}.
Definition set_wd_files (w : string) (f : gmap string FileInfo) (c : ArchiveCommand)
    : ArchiveCommand :=
  {| Paths := Paths c; Untracked := Untracked c; File := File c; Verbose := Verbose c;
     List := List c; NoProgress := NoProgress c; wd := w; files := f;
     totalSize := totalSize c |}.
Definition set_files (f : gmap string FileInfo) (size : Z) (c : ArchiveCommand)
    : ArchiveCommand :=
  {| Paths := Paths c; Untracked := Untracked c; File := File c; Verbose := Verbose c;
     List := List c; NoProgress := NoProgress c; wd := wd c; files := f;
     totalSize := size |}.

(** The operating system and the libraries as the command sees them.
    [Stat] and [Lstat] give the file's info or an error; [Walk root] is the
    sequence of paths that [filepath.Walk] hands to its callback under
    [root]; [gitUntracked] is the output of [git ls-files -o], line by
    line, or the failure of the command.  For the writing of the archive:
    [Dir] is [filepath.Dir]; [TempFile dir prefix] is [ioutil.TempFile],
    giving the name of the file created; [LstatArchiving] is what
    [os.Lstat] answers when the zip archive is written, which is later
    than the collecting; [CreateHeader], [Readlink], [Open] and [Copy] are
    [zip.Writer.CreateHeader] for an entry name, [os.Readlink], [os.Open]
    and the [io.Copy] of an opened file into its entry; [runTar args stdin]
    is [cmd.Run] of [tar]; [Rename] is [os.Rename]; [Quote] is the [%q]
    verb of [fmt]. *)
Record OS := {
  Getwd : string * option error;
  IsNotExist : error → bool;
  Stat : string → FileInfo + error;
  Lstat : string → FileInfo + error;
  Abs : string → string * option error;
  Rel : string → string → string * option error;
  Glob : string → list string * option error;
  Walk : string → list string;
  gitUntracked : list string * option error;
  Separator : string;
  Dir : string → string;
  TempFile : string → string → string * option error;
  LstatArchiving : string → FileInfo + error;
  CreateHeader : string → option error;
  Readlink : string → string * option error;
  Open : string → option error;
  Copy : string → option error;
  runTar : list string → string → option error;
  Rename : string → string → option error;
  Quote : string → string;
}.

(** What the command does that can be observed.  [EvFatal] is
    [logrus.Fatalln], which ends the process at once (no deferred call
    runs); [EvPrintln] is a line of [listFiles]; [EvPrintf] is the line
    that [createZipArchive] prints for an entry under [--verbose].  The
    other events are the steps of [archive] and of the two archivers;
    [logrus.Debugln] is left out. *)
Inductive Event :=
| EvFatal (msg : string)
| EvInfo (msg : string)
| EvWarning (msg : string)
| EvPrintln (line : string)
| EvMkdirAll (dir : string)
| EvTempFile (dir prefix : string)
| EvExec (command : string) (args : list string) (stdin : string)
| EvBarStart
| EvBarFinish
| EvCreateHeader (name : string) (deflate : bool)
| EvReadlink (name : string)
| EvWriteLink (name link : string)
| EvOpen (name : string)
| EvCopy (name : string) (throughBar : bool)
| EvPrintf (name : string)
| EvZipClose
| EvClose (file : string)
| EvRename (oldpath newpath : string) (err : option error)
| EvRemove (file : string).

#[global] Instance Event_eq_dec : EqDecision Event.
Proof. solve_decision. Defined.

(** [isChanged]: the loop over the map returns at the first newer file. *)
Definition isChanged (c : ArchiveCommand) (modTime : Time) : bool :=
  existsb (λ entry, Before modTime (ModTime (snd entry))) (map_to_list (files c)).

(** [sortedFiles]: the keys, by [sort.Strings]. *)
Definition sortedFiles (c : ArchiveCommand) : list string :=
  merge_sort (λ a b, Is_true (String.leb a b)) (fst <$> map_to_list (files c)).

(** [add(path, info)] *)
Definition add (os : OS) (c : ArchiveCommand) (path : string) (info : option FileInfo)
    : ArchiveCommand * list Event * option error :=
  let stat := match info with
              | None => Lstat os path
              | Some info => inl info
              end in
  match stat with
  | inl info =>
      let size := if IsRegular info then int_wrap (totalSize c + Size info)
                  else totalSize c in
      (set_files (<[path := info]> (files c)) size c, [], None)
  | inr err =>
      if IsNotExist os err then (c, [EvWarning "File doesn't exist"], None)
      else (c, [], Some err)
  end.

(** [process(match)] *)
Definition process (os : OS) (c : ArchiveCommand) (match_ : string)
    : ArchiveCommand * list Event * option error :=
  let '(absolute, err) := Abs os match_ in
  match err with
  | Some err => (c, [], Some err)
  | None =>
      let '(relative, err) := Rel os (wd c) absolute in
      match err with
      | Some err => (c, [], Some err)
      | None =>
          if HasPrefix relative (".." +:+ Separator os) then add os c absolute None
          else add os c relative None
      end
  end.

(** [filepath.Walk] with the callback of [processPaths]: the walk ends at
    the first error the callback returns. *)
Fixpoint walk (os : OS) (c : ArchiveCommand) (paths : list string)
    : ArchiveCommand * list Event * option error :=
  match paths with
  | [] => (c, [], None)
  | path :: rest =>
      let '(c, log, err) := process os c path in
      match err with
      | Some err => (c, log, Some err)
      | None => let '(c, log', err) := walk os c rest in (c, log ++ log', err)
      end
  end.

Definition processMatches (os : OS) (c : ArchiveCommand) (matches : list string)
    : ArchiveCommand * list Event :=
  foldl (λ acc match_,
           let '(c, log) := acc in
           let '(c, log', err) := walk os c (Walk os match_) in
           match err with
           | Some _ => (c, log ++ log' ++ [EvWarning "Walking"])
           | None => (c, log ++ log')
           end)
        (c, []) matches.

Definition processPaths (os : OS) (c : ArchiveCommand) : ArchiveCommand * list Event :=
  foldl (λ acc path,
           let '(c, log) := acc in
           let '(matches, err) := Glob os path in
           match err with
           | Some _ => (c, log ++ [EvWarning "glob"])
           | None => let '(c, log') := processMatches os c matches in (c, log ++ log')
           end)
        (c, []) (Paths c).

Definition processUntracked (os : OS) (c : ArchiveCommand) : ArchiveCommand * list Event :=
  if negb (Untracked c) then (c, [])
  else
    let '(lines, err) := gitUntracked os in
    match err with
    | None =>
        foldl (λ acc line,
                 let '(c, log) := acc in
                 let '(c, log', _) := process os c line in (c, log ++ log'))
              (c, []) lines
    | Some _ => (c, [EvWarning "git ls-files"])
    end.

(** [listFiles] *)
Definition listFiles (c : ArchiveCommand) : list Event :=
  if bool_decide (size (files c) = 0%nat) then [EvInfo "No files to archive."]
  else EvPrintln <$> sortedFiles c.

(** [isTarArchive] and [isZipArchive] *)
Definition isTarArchive (fileName : string) : bool :=
  if HasSuffix fileName ".tgz" || HasSuffix fileName ".tar.gz" then true else false.

Definition isZipArchive (fileName : string) : bool :=
  if HasSuffix fileName ".zip" then true else false.

(** The loop of [createZipArchive]: the steps made and the error on which
    the loop returned, if it did.  An entry whose [Lstat] fails now is
    skipped with a warning; a directory, a symlink and a file get a
    header (the regular file with [zip.Deflate]) and their content; named
    pipes, sockets and devices get a warning only; under [Verbose] a line
    is printed for each entry the [switch] is left with. *)
Fixpoint zipFiles (os : OS) (c : ArchiveCommand) (fileNames : list string)
    : list Event * option error :=
  match fileNames with
  | [] => ([], None)
  | fileName :: rest =>
      match LstatArchiving os fileName with
      | inr _ =>
          let '(log, err) := zipFiles os c rest in
          (EvWarning "File ignored" :: log, err)
      | inl fi =>
          let kind := Z.land (Mode fi) ModeType in
          let '(name, log, err) :=
            if kind =? ModeDir then
              let name := fileName +:+ "/" in
              (name, [EvCreateHeader name false], CreateHeader os name)
            else if kind =? ModeSymlink then
              match CreateHeader os fileName with
              | Some err => (fileName, [EvCreateHeader fileName false], Some err)
              | None =>
                  let '(link, err) := Readlink os fileName in
                  match err with
                  | Some err =>
                      (fileName, [EvCreateHeader fileName false; EvReadlink fileName],
                       Some err)
                  | None =>
                      (fileName,
                       [EvCreateHeader fileName false; EvReadlink fileName;
                        EvWriteLink fileName link], None)
                  end
              end
            else if (kind =? ModeNamedPipe) || (kind =? ModeSocket) || (kind =? ModeDevice) then
              (fileName, [EvWarning "File ignored"], None)
            else
              match CreateHeader os fileName with
              | Some err => (fileName, [EvCreateHeader fileName true], Some err)
              | None =>
                  match Open os fileName with
                  | Some err =>
                      (fileName, [EvCreateHeader fileName true; EvOpen fileName], Some err)
                  | None =>
                      (fileName,
                       [EvCreateHeader fileName true; EvOpen fileName;
                        EvCopy fileName (negb (NoProgress c)); EvClose fileName],
                       Copy os fileName)
                  end
              end in
          match err with
          | Some err => (log, Some err)
          | None =>
              let log := log ++ (if Verbose c then [EvPrintf name] else []) in
              let '(log', err) := zipFiles os c rest in
              (log ++ log', err)
          end
      end
  end.

(** [createZipArchive]: the deferred [bar.Finish] and [archive.Close] run
    when it returns, with or without an error. *)
Definition createZipArchive (os : OS) (c : ArchiveCommand) (fileNames : list string)
    : list Event * option error :=
  let '(log, err) := zipFiles os c fileNames in
  ((if negb (NoProgress c) then [EvBarStart] else [])
   ++ log
   ++ (if negb (NoProgress c) then [EvBarFinish] else [])
   ++ [EvZipClose], err).

(** [createTarArchive]: the names given to [tar] on its input are those of
    [c.sortedFiles()], not the parameter. *)
Definition createTarArchive (os : OS) (c : ArchiveCommand) (files_ : list string)
    : list Event * option error :=
  let list := foldl (λ list file, list +:+ (file +:+ String newline "")) "" (sortedFiles c) in
  let flags := "-zcP" in
  let flags := if Verbose c then flags +:+ "v" else flags in
  let args := [flags; "-T"; "-"; "--no-recursion"] in
  ([EvExec "tar" args list], runTar os args list).

(** [createArchive] *)
Definition createArchive (os : OS) (c : ArchiveCommand) (files_ : list string)
    : list Event * option error :=
  if isTarArchive (File c) then createTarArchive os c files_
  else if isZipArchive (File c) then createZipArchive os c files_
  else ([], Some (mkError ("Unsupported archive format: " +:+ Quote os (File c)))).

(** [archive]: after a [Fatalln] nothing more happens; otherwise the
    deferred [os.Remove] and [tempFile.Close] run last. *)
Definition archive (os : OS) (c : ArchiveCommand) : list Event :=
  if bool_decide (size (files c) = 0%nat) then [EvInfo "No files to archive."]
  else
    let start :=
      (if NoProgress c then [EvInfo "Creating archive"] else [])
      ++ [EvMkdirAll (Dir os (File c)); EvTempFile (Dir os (File c)) "archive_"] in
    let '(tempFile, err) := TempFile os (Dir os (File c)) "archive_" in
    match err with
    | Some _ => start ++ [EvFatal "Failed to create temporary archive"]
    | None =>
        let '(log, err) := createArchive os c (sortedFiles c) in
        match err with
        | Some _ => start ++ log ++ [EvFatal "Failed to create archive:"]
        | None =>
            let err := Rename os tempFile (File c) in
            start ++ log
            ++ [EvClose tempFile; EvRename tempFile (File c) err]
            ++ match err with
               | Some _ => [EvWarning "Failed to rename archive:"]
               | None => []
               end
            ++ (if NoProgress c then [EvInfo "Done!"] else [])
            ++ [EvRemove tempFile; EvClose tempFile]
        end
    end.

(** [Execute] *)
Definition Execute (os : OS) (c : ArchiveCommand) : list Event :=
  let c := if Verbose c then set_flags false true c else c in
  let c := if List c then set_flags (List c) true c else c in
  let '(wd, err) := Getwd os in
  match err with
  | Some _ => [EvFatal "Failed to get current working directory:"]
  | None =>
      if String.eqb (File c) "" && negb (List c) then
        [EvFatal "Missing archive file name!"]
      else
        let c := set_wd_files wd ∅ c in
        let '(c, log1) := processPaths os c in
        let '(c, log2) := processUntracked os c in
        let log := log1 ++ log2 in
        let rest := if List c then listFiles c else archive os c in
        match Stat os (File c) with
        | inr err =>
            if negb (IsNotExist os err) then log ++ [EvFatal "Failed to verify archive:"]
            else log ++ rest
        | inl ai =>
            if negb (isChanged c (ModTime ai)) then log ++ [EvInfo "Archive is up to date!"]
            else log ++ rest
        end
  end.

(** The file set [Execute] has collected when it looks at the archive. *)
Definition collected (os : OS) (c : ArchiveCommand) : ArchiveCommand :=
  let c := if Verbose c then set_flags false true c else c in
  let c := if List c then set_flags (List c) true c else c in
  let c := set_wd_files (fst (Getwd os)) ∅ c in
  fst (processUntracked os (fst (processPaths os c))).

(** A step of [archive] or of an archiver: anything that touches the file
    system, runs a command or prints an entry. *)
Definition isArchiveStep (e : Event) : bool :=
  match e with
  | EvFatal _ | EvInfo _ | EvWarning _ | EvPrintln _ => false
  | _ => true
  end.

(** Listing, or any step of rebuilding, as seen in a log. *)
Definition lists_or_rebuilds (log : list Event) : bool :=
  existsb (λ e, match e with
                | EvPrintln _ => true
                | _ => isArchiveStep e
                end) log.


Definition isWarning (e : Event) : bool :=
  match e with EvWarning _ => true | _ => false end.

(** *** Sample data: one directory with two files, and an older archive *)

Definition sampleLstat (name : string) : FileInfo + error :=
  if String.eqb name "vendor" then inl {| ModTime := 50; Size := 0; Mode := ModeDir + 493 |}
  else if String.eqb name "vendor/a.go" then inl {| ModTime := 60; Size := 7; Mode := 420 |}
  else if String.eqb name "vendor/b.go" then inl {| ModTime := 70; Size := 9; Mode := 420 |}
  else inr (mkError "no such file or directory").

(** The archive is [archiveName], last written at [archiveTime]; every
    step of writing an archive goes through. *)
Definition sampleOSwith (archiveName : string) (archiveTime : Time) : OS :=
  {| Getwd := ("/builds/group/repo", None);
     IsNotExist := λ e, String.eqb (Error e) "no such file or directory";
     Stat := λ name, if String.eqb name archiveName
                     then inl {| ModTime := archiveTime; Size := 10; Mode := 420 |}
                     else inr (mkError "no such file or directory");
     Lstat := sampleLstat;
     Abs := λ name, ("/builds/group/repo/" +:+ name, None);
     Rel := λ base target, (String.substring 19 (String.length target) target, None);
     Glob := λ pattern, ([pattern], None);
     Walk := λ root, if String.eqb root "vendor"
                     then ["vendor"; "vendor/a.go"; "vendor/b.go"] else [root];
     gitUntracked := ([], None);
     Separator := "/";
     Dir := λ name, if HasPrefix name "out/" then "out" else ".";
     TempFile := λ dir prefix, (dir +:+ "/" +:+ prefix +:+ "123456", None);
     LstatArchiving := sampleLstat;
     CreateHeader := λ _, None;
     Readlink := λ _, ("", Some (mkError "invalid argument"));
     Open := λ _, None;
     Copy := λ _, None;
     runTar := λ _ _, None;
     Rename := λ _ _, None;
     Quote := λ s, String (Ascii.ascii_of_nat 34) s +:+ String (Ascii.ascii_of_nat 34) "" |}.

Definition sampleOS (archiveTime : Time) : OS := sampleOSwith "out/cache.tgz" archiveTime.

Definition sampleArchiveTo (file : string) : ArchiveCommand :=
  {| Paths := ["vendor"]; Untracked := false; File := file; Verbose := false;
     List := false; NoProgress := false; wd := ""; files := ∅; totalSize := 0 |}.

Definition sampleArchive : ArchiveCommand := sampleArchiveTo "out/cache.tgz".

(** *** Further notions for the archive command *)

(** The order of [sort.Strings]: byte by byte. *)
Definition byteOrder (a b : string) : Prop := Is_true (String.leb a b).

(** Every collected path is recorded with the info [Lstat] gives for it. *)
Definition recorded (os : OS) (c : ArchiveCommand) : Prop :=
  ∀ path info, files c !! path = Some info → Lstat os path = inl info.

(** Some step of [archive] was made. *)
Definition createsArchive (log : list Event) : bool :=
  existsb isArchiveStep log.

(** What an archiver can do; [verbose] says whether it may print entries. *)
Definition archiverEvent (verbose : bool) (e : Event) : bool :=
  match e with
  | EvWarning _ | EvBarStart | EvBarFinish | EvCreateHeader _ _ | EvReadlink _
  | EvWriteLink _ _ | EvOpen _ | EvCopy _ _ | EvZipClose | EvClose _ => true
  | EvPrintf _ => verbose
  | EvExec _ (flags :: _) _ => verbose || negb (String.eqb flags "-zcPv")
  | _ => false
  end.

(** Entries were printed by an archiver: a line of [createZipArchive], or
    [tar] run with its [v] flag. *)
Definition printsEntries (log : list Event) : bool :=
  existsb (λ e, match e with
                | EvPrintf _ => true
                | EvExec _ (flags :: _) _ => String.eqb flags "-zcPv"
                | _ => false
                end) log.

Definition printsList (log : list Event) : bool :=
  existsb (λ e, match e with EvPrintln _ => true | _ => false end) log.

End CommandsHelpers.

(** ** package shells (abstract.go) *)

Module Shells.
Import Go Common.

(** Calls on the [ShellWriter]. *)
Inductive WriterCall :=
| WVariable (variable : BuildVariable)
| WCd (path : string)
| WNotice (format : string) (arg : string)
| WEmptyLine
| WLine (text : string)
| WCheckForErrors.

#[global] Instance WriterCall_eq_dec : EqDecision WriterCall.
Proof. solve_decision. Defined.

Section Generate.
(** [strings.TrimSpace] is Go's; the others are as in [Common]. *)
Variable TrimSpace : string → string.
Variable ToSlash : string → string.
Variable Runner_GetVariables : RunnerConfig → list BuildVariable.
Variable Expand : list BuildVariable → list BuildVariable.

Definition writeCdBuildDir (build : Build) : list WriterCall :=
  [WCd (FullProjectDir ToSlash build)].

Definition writeExports (build : Build) : list WriterCall :=
  WVariable <$> GetAllVariables ToSlash Runner_GetVariables Expand build.

(** The body of the loop of [GenerateCommands]. *)
Definition writeCommand (command : string) : list WriterCall :=
  let command := TrimSpace command in
  (if negb (String.eqb command "") then [WNotice "$ %s" command] else [WEmptyLine])
  ++ [WLine command; WCheckForErrors].

Definition GenerateCommands (build : Build) : list WriterCall :=
  let w := writeExports build ++ writeCdBuildDir build in
  let commands := Commands (Response build) in
  let commands := TrimSpace commands in
  foldl (λ w command, w ++ writeCommand command) w (SplitLines commands).

End Generate.

(** The notice or empty line that goes before the (trimmed) line [text]. *)
Definition announce (text : string) : WriterCall :=
  if String.eqb text "" then WEmptyLine else WNotice "$ %s" text.

Definition isLine (c : WriterCall) : bool :=
  match c with WLine _ => true | _ => false end.
Definition isCheck (c : WriterCall) : bool :=
  match c with WCheckForErrors => true | _ => false end.
Definition lineText (c : WriterCall) : option string :=
  match c with WLine t => Some t | _ => None end.

(** In a script, every line is announced just before and checked just
    after, and every check follows a line. *)
Definition checked (script : list WriterCall) : Prop :=
  (∀ i text, script !! i = Some (WLine text) →
     script !! S i = Some WCheckForErrors ∧
     ∃ j, i = S j ∧ script !! j = Some (announce text)) ∧
  (∀ i, script !! i = Some WCheckForErrors →
     ∃ j text, i = S j ∧ script !! j = Some (WLine text)).

(** [strings.TrimSpace] on ASCII text, for the concrete checks. *)
Definition isSpace (c : ascii) : bool :=
  let n := nat_of_ascii c in
  ((9 <=? n) && (n <=? 13) || (n =? 32))%nat.

Fixpoint trimLeft (s : string) : string :=
  match s with
  | String c s' => if isSpace c then trimLeft s' else s
  | EmptyString => EmptyString
  end.

Fixpoint trimRight (s : string) : string :=
  match s with
  | String c s' =>
      match trimRight s' with
      | EmptyString => if isSpace c then EmptyString else String c EmptyString
      | t => String c t
      end
  | EmptyString => EmptyString
  end.

Definition TrimSpaceASCII (s : string) : string := trimRight (trimLeft s).

(** *** Cache commands *)

(** [archivingOptions]: the fields the code reads. *)
Record archivingOptions := {
  Key : string;
  Untracked : bool;
  Paths : list string;
}.

(** The further fields of [common.Build] that the cache commands read. *)
Record BuildExtra := {
  RunnerCommand : string;
  CacheDir : string;
  Name : string;
}.

(** Further calls on the [ShellWriter]. *)
Inductive ShellOp :=
| OpNotice (format : string) (args : list string)
| OpWarning (message : string)
| OpCommand (command : string) (arguments : list string).

#[global] Instance ShellOp_eq_dec : EqDecision ShellOp.
Proof. solve_decision. Defined.

(** [CommandArguments] *)
Definition CommandArguments (o : archivingOptions) : list string :=
  let args := foldl (λ args path, args ++ ["--path"; path]) [] (Paths o) in
  if Untracked o then args ++ ["--untracked"] else args.

Section Cache.
(** [path.Join], [filepath.Rel] and [BuildVariables.ExpandValue] are
    library or outside these sources, like [getCacheUploadURL] and
    [getCacheDownloadURL]. *)
Variable path_Join : list string → string.
Variable filepath_Rel : string → string → string * option error.
Variable ExpandValue : Build → string → string.
Variable getCacheUploadURL : Build → string → string.
Variable getCacheDownloadURL : Build → string → string.

(** [cacheFile]: the key and the file. *)
Definition cacheFile (build : Build) (extra : BuildExtra) (userKey : string)
    : string * string :=
  if String.eqb (CacheDir extra) "" then ("", "")
  else
    let key := path_Join [Name extra; RefName (Response build)] in
    let key := if negb (String.eqb userKey "") then ExpandValue build userKey else key in
    if String.eqb key "" then ("", "")
    else
      let file := path_Join [CacheDir extra; key; "cache.zip"] in
      let '(file, err) := filepath_Rel (BuildDir build) file in
      match err with
      | Some _ => ("", "")
      | None => (key, file)
      end.

(** [cacheExtractor] *)
Definition cacheExtractor (options : option archivingOptions) (build : Build)
    (extra : BuildExtra) : list ShellOp :=
  match options with
  | None => []
  | Some options =>
      if String.eqb (RunnerCommand extra) "" then
        [OpWarning "The cache is not supported in this executor."]
      else if bool_decide (length (CommandArguments options) = 0%nat) then []
      else
        let '(cacheKey, cacheFile_) := cacheFile build extra (Key options) in
        if String.eqb cacheKey "" then []
        else
          let args := ["cache-extractor"; "--file"; cacheFile_] in
          let url := getCacheDownloadURL build cacheKey in
          let args := if negb (String.eqb url "") then args ++ ["--url"; url] else args in
          [OpNotice "Checking cache for %s..." [cacheKey];
           OpCommand (RunnerCommand extra) args]
  end.

(** [cacheArchiver] *)
Definition cacheArchiver (options : option archivingOptions) (build : Build)
    (extra : BuildExtra) : list ShellOp :=
  match options with
  | None => []
  | Some options =>
      if String.eqb (RunnerCommand extra) "" then
        [OpWarning "The cache is not supported in this executor."]
      else
        let '(cacheKey, cacheFile_) := cacheFile build extra (Key options) in
        if String.eqb cacheKey "" then []
        else
          let args := ["cache-archiver"; "--file"; cacheFile_] in
          let archiverArgs := CommandArguments options in
          if bool_decide (length archiverArgs = 0%nat) then []
          else
            let args := args ++ archiverArgs in
            let url := getCacheUploadURL build cacheKey in
            let args := if negb (String.eqb url "") then args ++ ["--url"; url] else args in
            [OpNotice "Creating cache %s..." [cacheKey];
             OpCommand (RunnerCommand extra) args]
  end.

End Cache.

(** The file named after [--file] in the command of a script, if the
    script runs a command. *)
Definition commandFile (ops : list ShellOp) : option string :=
  match List.filter (λ op, match op with OpCommand _ _ => true | _ => false end) ops with
  | OpCommand _ (_ :: "--file" :: file :: _) :: _ => Some file
  | _ => None
  end.

Definition commands (ops : list ShellOp) : list ShellOp :=
  List.filter (λ op, match op with OpCommand _ _ => true | _ => false end) ops.

(** Number of newlines of a text. *)
Fixpoint countNewlines (s : string) : nat :=
  match s with
  | EmptyString => O
  | String c s' => (if Ascii.eqb c newline then 1 else 0) + countNewlines s'
  end.

End Shells.

(** * Properties *)

(** Membership in a list that is written out. *)
Ltac absent H :=
  repeat (apply elem_of_cons in H as [H|H]; [discriminate H|]);
  by apply elem_of_nil in H.

Ltac present :=
  solve [repeat first [apply list_elem_of_here | apply list_elem_of_further]].

Ltac member_iff :=
  let H := fresh "H" in
  split; intros H;
  first [ done | split; done | present | absent H
        | discriminate H | destruct H; discriminate ].

(** ** common.AssignID *)

Section AssignID_facts.
Import Go Common.

Lemma int_wrap_id z : Go.int_min ≤ z ≤ Go.int_max → Go.int_wrap z = z.
Proof.
  unfold Go.int_min, Go.int_max, Go.int_wrap. intros H.
  rewrite Z.mod_small; lia.
Qed.

(** The keys marked [true] in a map include [0 .. i-1] only if the map has
    at least [i] entries. *)
Lemma taken_below_size (m : gmap Z bool) (i : Z) :
  0 ≤ i → (∀ j, 0 ≤ j < i → taken m j = true) → i ≤ Z.of_nat (size m).
Proof.
  intros Hi Hall.
  assert (Hsub : list_to_set (seqZ 0 i) ⊆ dom m).
  { intros j Hj. apply elem_of_list_to_set, elem_of_seqZ in Hj.
    apply elem_of_dom. specialize (Hall j ltac:(lia)).
    unfold taken in Hall. destruct (m !! j); [eauto | discriminate]. }
  apply subseteq_size in Hsub.
  rewrite size_list_to_set in Hsub by apply NoDup_seqZ.
  rewrite length_seqZ, size_dom in Hsub. lia.
Qed.

Lemma firstFree_finds (m : gmap Z bool) (fuel : nat) (i : Z) :
  0 ≤ i →
  (∀ j, 0 ≤ j < i → taken m j = true) →
  Z.of_nat (size m) < i + Z.of_nat fuel →
  Z.of_nat (size m) ≤ Go.int_max →
  ∃ r, firstFree m fuel i = Some r ∧ i ≤ r ≤ Z.of_nat (size m) ∧
       taken m r = false ∧ ∀ j, 0 ≤ j < r → taken m j = true.
Proof.
  revert i. induction fuel as [|fuel IH]; intros i Hi Hall Hfuel Hmax.
  - pose proof (taken_below_size m i Hi Hall). lia.
  - pose proof (taken_below_size m i Hi Hall) as Hle.
    simpl. destruct (taken m i) eqn:Ht; simpl.
    + assert (Hall' : ∀ j, 0 ≤ j < i + 1 → taken m j = true).
      { intros j Hj. destruct (decide (j = i)) as [->|]; [done | apply Hall; lia]. }
      pose proof (taken_below_size m (i + 1) ltac:(lia) Hall') as Hle'.
      unfold Go.int_incr. rewrite int_wrap_id by (unfold Go.int_min, Go.int_max in *; lia).
      destruct (IH (i + 1) ltac:(lia) Hall' ltac:(lia) Hmax) as (r & ? & ? & ? & ?).
      exists r. repeat split; try done; lia.
    + exists i. repeat split; try done; lia.
Qed.

Lemma taken_insert (m : gmap Z bool) (k i : Z) :
  taken (<[k := true]> m) i = true ↔ k = i ∨ taken m i = true.
Proof.
  unfold taken. rewrite lookup_insert. case_decide; simpl.
  - split; [by left | done].
  - split; [by right | by intros [?|?]].
Qed.

Lemma size_insert_le (m : gmap Z bool) (k : Z) (n : nat) :
  (size m ≤ n)%nat → (size (<[k := true]> m) ≤ S n)%nat.
Proof.
  intros H. destruct (m !! k) eqn:E.
  - rewrite map_size_insert_Some by eauto. lia.
  - rewrite map_size_insert_None by done. lia.
Qed.

Lemma exists_snoc (P : Build → Prop) (others : list Build) (o : Build) :
  (∃ x, x ∈ others ++ [o] ∧ P x) ↔ (∃ x, x ∈ others ∧ P x) ∨ P o.
Proof.
  split.
  - intros (x & [Hx|Hx]%elem_of_app & HP); [left; eauto|].
    apply list_elem_of_singleton in Hx as ->. by right.
  - intros [(x & Hx & HP)|HP].
    + exists x. split; [apply elem_of_app; by left | done].
    + exists o. split; [|done]. apply elem_of_app. right.
      by apply list_elem_of_singleton.
Qed.

Lemma usedGlobal_snoc others o i :
  usedGlobal (others ++ [o]) i ↔ usedGlobal others i ∨ GlobalID o = i.
Proof. apply exists_snoc. Qed.

Lemma usedRunner_snoc b others o i :
  usedRunner b (others ++ [o]) i ↔
  usedRunner b others i ∨
  (ShortDescription (Runner o) = ShortDescription (Runner b) ∧ RunnerID o = i).
Proof. apply (exists_snoc (λ x, _ ∧ _)). Qed.

Lemma usedProjectRunner_snoc b others o i :
  usedProjectRunner b (others ++ [o]) i ↔
  usedProjectRunner b others i ∨
  (ShortDescription (Runner o) = ShortDescription (Runner b) ∧
   ProjectID (Response o) = ProjectID (Response b) ∧ ProjectRunnerID o = i).
Proof. apply (exists_snoc (λ x, _ ∧ _ ∧ _)). Qed.

Lemma mark_ok b others acc o :
  marks_ok b others acc → marks_ok b (others ++ [o]) (mark b acc o).
Proof.
  destruct acc as [[g r] p]. intros (Hg & Hr & Hp & Sg & Sr & Sp).
  assert (HL : length (others ++ [o]) = S (length others))
    by (rewrite length_app; simpl; lia).
  pose proof (size_insert_le g (GlobalID o) _ Sg).
  pose proof (size_insert_le r (RunnerID o) _ Sr).
  pose proof (size_insert_le p (ProjectRunnerID o) _ Sp).
  unfold mark, marks_ok. rewrite HL. clear HL.
  case_bool_decide as Hd; [case_bool_decide as Hd'|]; simpl;
    (split; [|split; [|split; [|lia]]]); intros i;
    rewrite ?taken_insert, usedGlobal_snoc || rewrite ?taken_insert, usedRunner_snoc
    || rewrite ?taken_insert, usedProjectRunner_snoc;
    rewrite ?Hg, ?Hr, ?Hp; tauto.
Qed.

Lemma foldl_mark_ok b done_ todo acc :
  marks_ok b done_ acc → marks_ok b (done_ ++ todo) (foldl (mark b) acc todo).
Proof.
  revert done_ acc. induction todo as [|o todo IH]; intros done_ acc H; simpl.
  - by rewrite app_nil_r.
  - replace (done_ ++ o :: todo) with ((done_ ++ [o]) ++ todo)
      by (by rewrite <- app_assoc).
    apply IH. by apply mark_ok.
Qed.

Lemma markAll_ok b others : marks_ok b others (markAll b others).
Proof.
  unfold markAll. apply (foldl_mark_ok b [] others (∅, ∅, ∅)).
  repeat split; try (simpl; rewrite ?map_size_empty; lia);
    unfold taken; rewrite ?lookup_empty; simpl; try discriminate;
    intros (x & Hx & _); by apply elem_of_nil in Hx.
Qed.

Lemma firstFree_smallest (m : gmap Z bool) (fuel n : nat) (used : Z → Prop) :
  (∀ i, taken m i = true ↔ used i) →
  (size m ≤ n)%nat → (n < fuel)%nat → Z.of_nat n ≤ Go.int_max →
  ∃ r, firstFree m fuel 0 = Some r ∧ smallestFree used r ∧ r ≤ Z.of_nat n.
Proof.
  intros Hu Hs Hf Hmax.
  destruct (firstFree_finds m fuel 0) as (r & Hr & ? & Hfree & Hbelow);
    [lia | intros; lia | lia | lia |].
  exists r. split; [done|]. split; [|lia]. repeat split.
  - lia.
  - rewrite <- Hu. by rewrite Hfree.
  - intros j Hj. apply Hu. by apply Hbelow.
Qed.

Example AssignID_sample :
  AssignID 4 (mkBuild 10 7 runnerA 0 0 0)
    [mkBuild 1 7 runnerA 0 0 0; mkBuild 2 8 runnerA 1 1 0; mkBuild 3 7 runnerB 2 0 0]
  = Some (mkBuild 10 7 runnerA 3 2 1).
Proof. vm_compute. reflexivity. Qed.

Example AssignID_out_of_fuel :
  AssignID 1 (mkBuild 10 7 runnerA 0 0 0) [mkBuild 1 7 runnerA 0 0 0] = None.
Proof. vm_compute. reflexivity. Qed.

(** C2. For every build [b] and every list of other in-flight builds,
    [AssignID] terminates (any fuel above the number of other builds is
    enough, and no [i++] overflows) and sets [GlobalID], [RunnerID] and
    [ProjectRunnerID] each to the smallest non-negative integer not used in
    its scope: all other builds; the other builds of a runner with the same
    short description; the other builds of such a runner with the same
    project.  The three are found independently and no other field
    changes. *)
Theorem AssignID_smallest_free (fuel : nat) (b : Build) (otherBuilds : list Build) :
  (length otherBuilds < fuel)%nat →
  Z.of_nat (length otherBuilds) ≤ Go.int_max →
  ∃ b', AssignID fuel b otherBuilds = Some b' ∧
        smallestFree (usedGlobal otherBuilds) (GlobalID b') ∧
        smallestFree (usedRunner b otherBuilds) (RunnerID b') ∧
        smallestFree (usedProjectRunner b otherBuilds) (ProjectRunnerID b') ∧
        (Response b', BuildDir b', Runner b') = (Response b, BuildDir b, Runner b).
Proof.
  intros Hfuel Hmax. unfold AssignID.
  pose proof (markAll_ok b otherBuilds) as Hok.
  destruct (markAll b otherBuilds) as [[g r] p].
  destruct Hok as (Hg & Hr & Hp & Sg & Sr & Sp).
  destruct (firstFree_smallest g fuel _ _ Hg Sg Hfuel Hmax) as (ig & -> & ? & _).
  destruct (firstFree_smallest r fuel _ _ Hr Sr Hfuel Hmax) as (ir & -> & ? & _).
  destruct (firstFree_smallest p fuel _ _ Hp Sp Hfuel Hmax) as (ip & -> & ? & _).
  eexists. split; [reflexivity|]. simpl. done.
Qed.

Lemma AssignID_smallest_free_witness :
  ∃ b', AssignID 3 (mkBuild 10 7 runnerA 0 0 0)
          [mkBuild 1 7 runnerA 0 0 0; mkBuild 2 8 runnerA 1 1 0] = Some b' ∧
        smallestFree (usedGlobal [mkBuild 1 7 runnerA 0 0 0; mkBuild 2 8 runnerA 1 1 0])
                     (GlobalID b') ∧
        smallestFree (usedRunner (mkBuild 10 7 runnerA 0 0 0)
                        [mkBuild 1 7 runnerA 0 0 0; mkBuild 2 8 runnerA 1 1 0])
                     (RunnerID b') ∧
        smallestFree (usedProjectRunner (mkBuild 10 7 runnerA 0 0 0)
                        [mkBuild 1 7 runnerA 0 0 0; mkBuild 2 8 runnerA 1 1 0])
                     (ProjectRunnerID b') ∧
        (Response b', BuildDir b', Runner b')
        = (mkResponse 10 7 "", "/builds/group/repo", runnerA).
Proof.
  apply (AssignID_smallest_free 3 (mkBuild 10 7 runnerA 0 0 0)
           [mkBuild 1 7 runnerA 0 0 0; mkBuild 2 8 runnerA 1 1 0]).
  - simpl. lia.
  - vm_compute. discriminate.
Defined.

End AssignID_facts.

(** ** common.Build.Run *)

Section Run_facts.
Import Go Common.
Context {S : Type}.
Variable NewExecutor : string → option (ExecutorT S * S).

(** The state the executor is in after the last of [Prepare], [Start] and
    [Wait] that [Run] calls. *)
Lemma Run_calls (b : Build) (executor : ExecutorT S) (s0 : S) :
  NewExecutor (Executor (Runner b)) = Some (executor, s0) →
  let p := snd (Prepare executor b s0) in
  let s1 := fst (Prepare executor b s0) in
  let st := snd (Start executor s1) in
  let s2 := fst (Start executor s1) in
  let w := snd (Wait executor s2) in
  let s3 := fst (Wait executor s2) in
  let err := firstError p st w in
  let last := match p with
              | Some _ => s1
              | None => match st with Some _ => s2 | None => s3 end
              end in
  Run NewExecutor b =
    (CallPrepare ::
     match p with
     | Some _ => []
     | None => CallStart :: match st with Some _ => [] | None => [CallWait] end
     end ++ [CallFinish err; CallCleanup],
     Some (Cleanup executor (Finish executor err last)), err).
Proof.
  intros HN. unfold Run. rewrite HN. simpl.
  destruct (Prepare executor b s0) as [s1 [e|]]; simpl; [done|].
  destruct (Start executor s1) as [s2 [e|]]; simpl; [done|].
  destruct (Wait executor s2) as [s3 w]; simpl. done.
Qed.

(** C4. When an executor is found for the runner's executor kind, [Run]
    calls [Start] only if (indeed exactly when) [Prepare] answered nil and
    [Wait] only if (exactly when) [Start] was called and answered nil, each
    on the state the call before it left; it calls [Finish] exactly once,
    with the first error among the answers of [Prepare], [Start] and
    [Wait] (nil if there is none); it calls [Cleanup] exactly once, right
    after [Finish], as its last call, so that the executor ends in the
    state [Cleanup] makes of what [Finish err] makes of the state the last
    of the three steps left; and it returns that same error. *)
Theorem Run_executor_protocol (b : Build) (executor : ExecutorT S) (s0 : S) :
  NewExecutor (Executor (Runner b)) = Some (executor, s0) →
  let p := snd (Prepare executor b s0) in
  let s1 := fst (Prepare executor b s0) in
  let st := snd (Start executor s1) in
  let s2 := fst (Start executor s1) in
  let w := snd (Wait executor s2) in
  let s3 := fst (Wait executor s2) in
  let err := firstError p st w in
  let last := match p with
              | Some _ => s1
              | None => match st with Some _ => s2 | None => s3 end
              end in
  ∃ calls before,
    Run NewExecutor b = (calls, Some (Cleanup executor (Finish executor err last)), err) ∧
    (CallStart ∈ calls ↔ p = None) ∧
    (CallWait ∈ calls ↔ p = None ∧ st = None) ∧
    List.filter isFinish calls = [CallFinish err] ∧
    List.filter (λ c, bool_decide (c = CallCleanup)) calls = [CallCleanup] ∧
    calls = before ++ [CallFinish err; CallCleanup].
Proof.
  intros HN. pose proof (Run_calls b executor s0 HN) as Hrun.
  simpl in *. rewrite Hrun. clear Hrun HN.
  destruct (Prepare executor b s0) as [s1 [e|]]; simpl in *.
  { eexists _, [CallPrepare]. split; [reflexivity|].
    split; [member_iff|]. split; [member_iff|]. done. }
  destruct (Start executor s1) as [s2 [e|]]; simpl in *.
  { eexists _, [CallPrepare; CallStart]. split; [reflexivity|].
    split; [member_iff|]. split; [member_iff|]. done. }
  eexists _, [CallPrepare; CallStart; CallWait]. split; [reflexivity|].
  split; [member_iff|]. split; [member_iff|]. done.
Qed.

End Run_facts.

Lemma Run_executor_protocol_witness :
  ∃ calls before,
    Common.Run (λ _, Some (Common.scriptedExecutor None (Some (Go.mkError "boom")) None, []))
               (Common.mkBuild 1 7 Common.runnerA 0 0 0)
    = (calls,
       Some [Common.CallPrepare; Common.CallStart;
             Common.CallFinish (Some (Go.mkError "boom")); Common.CallCleanup],
       Some (Go.mkError "boom")) ∧
    (Common.CallStart ∈ calls ↔ @None Go.error = None) ∧
    (Common.CallWait ∈ calls ↔ @None Go.error = None ∧ Some (Go.mkError "boom") = None) ∧
    List.filter Common.isFinish calls = [Common.CallFinish (Some (Go.mkError "boom"))] ∧
    List.filter (λ c, bool_decide (c = Common.CallCleanup)) calls = [Common.CallCleanup] ∧
    calls = before ++ [Common.CallFinish (Some (Go.mkError "boom")); Common.CallCleanup].
Proof.
  apply (Run_executor_protocol
           (λ _, Some (Common.scriptedExecutor None (Some (Go.mkError "boom")) None, []))
           (Common.mkBuild 1 7 Common.runnerA 0 0 0)
           (Common.scriptedExecutor None (Some (Go.mkError "boom")) None) []).
  reflexivity.
Defined.

Example Run_executor_missing :
  Common.Run (S := list Common.RunCall) (λ _, None) (Common.mkBuild 1 7 Common.runnerA 0 0 0)
  = ([Common.CallWriteString "Executor not found: shell"; Common.CallSendBuildLog],
     None, Some (Go.mkError "executor not found")).
Proof. reflexivity. Qed.

(** ** common.Build.ProjectSlug and ProjectUniqueDir *)

Section ProjectDir_facts.
Import Go Common.

Lemma dotless_no_dotdot (s : string) : dotless s = true → Contains s ".." = false.
Proof.
  induction s as [|c s IH]; [done|].
  cbn [dotless Contains HasPrefix].
  intros [Hc Hs]%andb_true_iff. rewrite (IH Hs), orb_false_r.
  destruct (Ascii.eqb_spec "." c) as [<-|]; [|done].
  vm_compute in Hc. discriminate.
Qed.

Lemma dotless_append (s t : string) :
  dotless (s +:+ t) = dotless s && dotless t.
Proof.
  induction s as [|c s IH]; [done|].
  change (String c s +:+ t) with (String c (s +:+ t)).
  cbn [dotless]. by rewrite IH, andb_assoc.
Qed.

Lemma dotless_uint (d : Decimal.uint) : dotless (NilEmpty.string_of_uint d) = true.
Proof. induction d; simpl; done. Qed.

Lemma dotless_Itoa (n : Z) : dotless (Itoa n) = true.
Proof.
  unfold Itoa, NilZero.string_of_int, NilZero.string_of_uint.
  destruct (Z.to_int n) as [d|d]; destruct d; simpl; try done; apply dotless_uint.
Qed.

Example Itoa_samples : Itoa 0 = "0" ∧ Itoa 1234 = "1234" ∧ Itoa (-56) = "-56".
Proof. repeat split; reflexivity. Qed.

Variable url_Parse : string → url_URL * option error.
Variable filepath_Clean : string → string.
Variable filepath_Join : list string → string.

(** C8. Whatever [url.Parse] and [filepath.Clean] do, the name returned by
    [ProjectUniqueDir(false)] never contains "..".  [ProjectSlug] returns
    an error exactly when the URL fails to parse, or has an empty host, or
    its path (without a ".git" suffix) cleans to "." or still contains ".."
    after cleaning; and on an error [ProjectUniqueDir(false)] is
    "project-" followed by the decimal project identifier, otherwise it is
    the slug. *)
Theorem ProjectUniqueDir_no_parent_reference (b : Build) :
  let url := fst (url_Parse (RepoURL (Response b))) in
  let cleaned := filepath_Clean (TrimSuffix (Path url) ".git") in
  Contains (ProjectUniqueDir url_Parse filepath_Clean filepath_Join b false) ".." = false ∧
  bool_decide (snd (ProjectSlug url_Parse filepath_Clean b) ≠ None)
  = (bool_decide (snd (url_Parse (RepoURL (Response b))) ≠ None)
     || String.eqb (Host url) "" || String.eqb cleaned "." || Contains cleaned "..") ∧
  ProjectUniqueDir url_Parse filepath_Clean filepath_Join b false
  = match snd (ProjectSlug url_Parse filepath_Clean b) with
    | Some _ => "project-" +:+ Itoa (ProjectID (Response b))
    | None => cleaned
    end.
Proof.
  assert (Hfallback : Contains ("project-" +:+ Itoa (ProjectID (Response b))) ".." = false).
  { apply dotless_no_dotdot. rewrite dotless_append, dotless_Itoa. reflexivity. }
  unfold ProjectUniqueDir, ProjectSlug. simpl.
  destruct (url_Parse (RepoURL (Response b))) as [url [e|]]; simpl; [done|].
  destruct (String.eqb (Host url) ""); simpl; [done|].
  destruct (String.eqb (filepath_Clean (TrimSuffix (Path url) ".git")) "."); simpl; [done|].
  destruct (Contains (filepath_Clean (TrimSuffix (Path url) ".git")) "..") eqn:E; simpl;
    done.
Qed.

End ProjectDir_facts.

(** A parser for the concrete checks: scheme, "://", host up to the next
    "/", then the path; and a [Clean] that leaves its argument alone. *)
Example ProjectUniqueDir_samples :
  let parse := λ s : string,
    if String.eqb s "https://gitlab.example.com/group/repo.git"
    then ({| Common.Host := "gitlab.example.com"; Common.Path := "/group/repo.git" |}, None)
    else if String.eqb s "https://gitlab.example.com/../../etc.git"
    then ({| Common.Host := "gitlab.example.com"; Common.Path := "/../../etc.git" |}, None)
    else ({| Common.Host := ""; Common.Path := "" |}, Some (Go.mkError "parse error")) in
  let build := λ repo,
    {| Common.Response :=
         {| Common.ID := 1; Common.ProjectID := 42; Common.Commands := "";
            Common.RepoURL := repo; Common.Sha := ""; Common.BeforeSha := "";
            Common.RefName := ""; Common.Variables := [] |};
       Common.BuildDir := ""; Common.Runner := Common.runnerA;
       Common.GlobalID := 0; Common.RunnerID := 0; Common.ProjectRunnerID := 0 |} in
  Common.ProjectUniqueDir parse id (λ _, "")
    (build "https://gitlab.example.com/group/repo.git") false = "/group/repo" ∧
  Common.ProjectUniqueDir parse id (λ _, "")
    (build "https://gitlab.example.com/../../etc.git") false = "project-42" ∧
  Common.ProjectUniqueDir parse id (λ _, "") (build "::") false = "project-42".
Proof. repeat split; reflexivity. Qed.

(** ** commands: feeder, job driver and worker *)

Section Slot_facts.
Import Go Common Commands.
Variable NewBuild : GetBuildResponse → RunnerConfig → Build.

Lemma count_nil e : count e [] = 0%nat.
Proof. reflexivity. Qed.

Lemma count_cons e x log :
  count e (x :: log) = ((if decide (x = e) then 1 else 0) + count e log)%nat.
Proof.
  unfold count. simpl. unfold bool_decide. destruct (decide_rel eq x e); simpl;
    destruct (decide (x = e)); try done; lia.
Qed.

Lemma count_app e log1 log2 : count e (log1 ++ log2) = (count e log1 + count e log2)%nat.
Proof. unfold count. by rewrite List.filter_app, length_app. Qed.

Local Ltac count_events :=
  repeat first
    [ rewrite count_app | rewrite count_cons | rewrite count_nil ];
  repeat case_decide; simplify_eq; try done; try lia.

Example processRunner_job_fails :
  processRunner sampleNewBuild jobFails 3 slotA
  = ([EvBuildsAcquire runnerA; EvGetBuild runnerA; EvMakeHealthy "aaaaaaaa-1" true;
      EvProcessBuild runnerA 5;
      EvAddBuild (sampleNewBuild (mkResponse 5 7 "make test") runnerA);
      EvBuildRun (sampleNewBuild (mkResponse 5 7 "make test") runnerA) 41;
      EvRemoveBuild (sampleNewBuild (mkResponse 5 7 "make test") runnerA);
      EvTraceFail None;
      EvBuildsRelease runnerA;
      EvRelease "shell" runnerA 41],
     Some (mkError "exit status 1")).
Proof. reflexivity. Qed.

Example processRunner_idle :
  processRunner sampleNewBuild jobIdle 3 slotA
  = ([EvBuildsAcquire runnerA; EvGetBuild runnerA; EvMakeHealthy "aaaaaaaa-1" true;
      EvBuildsRelease runnerA; EvRelease "shell" runnerA 41], None).
Proof. reflexivity. Qed.

(** The four exit paths of [processRunner]. *)
Lemma processRunner_paths env id runner :
  let cfg := runner_config runner in
  let rel := EvRelease (kind (provider runner)) cfg (data runner) in
  fst (processRunner NewBuild env id runner) =
    match buildsHelper_acquire env, network_GetBuild env with
    | false, _ => [EvBuildsAcquire cfg; rel]
    | true, (None, healthy) =>
        [EvBuildsAcquire cfg; EvGetBuild cfg; EvMakeHealthy (UniqueID cfg) healthy;
         EvBuildsRelease cfg; rel]
    | true, (Some buildData, healthy) =>
        [EvBuildsAcquire cfg; EvGetBuild cfg; EvMakeHealthy (UniqueID cfg) healthy;
         EvProcessBuild cfg (ID buildData);
         EvAddBuild (NewBuild buildData cfg);
         EvBuildRun (NewBuild buildData cfg) (data runner);
         EvRemoveBuild (NewBuild buildData cfg);
         EvTraceFail None;
         EvBuildsRelease cfg; rel]
    end.
Proof.
  destruct env as [[] [[bd|] healthy] run]; reflexivity.
Qed.

Lemma releases_processRunner env id runner r :
  releases r (fst (processRunner NewBuild env id runner)) =
  if decide (EvRelease (kind (provider runner)) (runner_config runner) (data runner)
             = EvRelease (kind (provider r)) (runner_config r) (data r))
  then 1%nat else 0%nat.
Proof.
  unfold releases. rewrite processRunner_paths.
  destruct env as [[] [[bd|] healthy] run]; simpl; count_events.
Qed.

Lemma receives_processRunner env id runner r :
  receives r (fst (processRunner NewBuild env id runner)) = 0%nat.
Proof.
  unfold receives. rewrite processRunner_paths.
  destruct env as [[] [[bd|] healthy] run]; simpl; count_events.
Qed.

Lemma processRunners_release_per_receive id ticks r :
  releases r (processRunners NewBuild id ticks) = receives r (processRunners NewBuild id ticks).
Proof.
  induction ticks as [|t ticks IH]; [done|].
  simpl. destruct (stopSignal_seen t); [done|].
  destruct (select_worker t) as [runner env| |]; [|done..].
  pose proof (releases_processRunner env id runner r) as Hrel.
  pose proof (receives_processRunner env id runner r) as Hrec.
  unfold releases, receives in *.
  rewrite !count_cons, !count_app, !count_cons, ?count_nil, Hrel, Hrec, IH.
  repeat case_decide; try lia; exfalso; congruence.
Qed.

(** C1, as amended. On every exit path of [processRunner] (capacity
    refused by [buildsHelper.acquire], [GetBuild] returning nil, the job
    failing, the job succeeding) [runner.Release()] is called exactly once,
    as the last call before [processRunner] returns; and in the log of a
    worker every slot is released exactly as often as the worker received
    it from the channel.  So a slot that a worker receives is released
    exactly once, and the worker releases nothing for a slot that it does
    not receive because it is stopped first. *)
Theorem received_slot_released_once :
  (∀ env id runner,
     releases runner (fst (processRunner NewBuild env id runner)) = 1%nat ∧
     last (fst (processRunner NewBuild env id runner))
     = Some (EvRelease (kind (provider runner)) (runner_config runner) (data runner))) ∧
  (∀ id ticks runner,
     releases runner (processRunners NewBuild id ticks) = receives runner (processRunners NewBuild id ticks)).
Proof.
  split; [|apply processRunners_release_per_receive].
  intros env id runner. split.
  - rewrite releases_processRunner. by case_decide.
  - rewrite processRunner_paths.
    destruct env as [[] [[bd|] healthy] run]; reflexivity.
Qed.

(** C1, as stated, fails: the feeder has acquired [slotA] and offers it on
    the channel; the worker takes [stopWorker] instead and returns; nothing
    releases the slot. *)
Lemma stopped_worker_leaves_slot_unreleased :
  feedRunner (λ _, true) (registry true) runnerA
  = ([EvAcquire "shell" runnerA; EvSend "shell" runnerA 41], Some slotA) ∧
  offered stoppedFirst = Some (slotA, jobIdle) ∧
  processRunners sampleNewBuild 0 [stoppedFirst] = [EvStopWorker] ∧
  releases slotA (fst (feedRunner (λ _, true) (registry true) runnerA)
                  ++ processRunners sampleNewBuild 0 [stoppedFirst]) ≠ 1%nat.
Proof. repeat split; vm_compute; discriminate. Qed.

Example served_slot_released :
  processRunners sampleNewBuild 0 [served; stoppedFirst]
  = [EvRecv "shell" runnerA 41;
     EvBuildsAcquire runnerA; EvGetBuild runnerA; EvMakeHealthy "aaaaaaaa-1" true;
     EvBuildsRelease runnerA; EvRelease "shell" runnerA 41;
     EvGC; EvStopWorker].
Proof. reflexivity. Qed.

(** C5: what the code does. The argument of the deferred [trace.Fail(err)]
    is read when the [defer] statement runs, before the build has run, so
    the trace is failed with nil whatever [build.Run] returns; the error
    of the build is only the return value of [processRunner]. *)
Theorem processRunner_fails_trace_with_nil (id : Z) (runner : runnerAcquire)
    (buildData : GetBuildResponse) (healthy : bool) (e : error) :
  let env := {| buildsHelper_acquire := true;
                network_GetBuild := (Some buildData, healthy);
                build_Run := Some e |} in
  snd (processRunner NewBuild env id runner) = Some e ∧
  count (EvTraceFail None) (fst (processRunner NewBuild env id runner)) = 1%nat ∧
  count (EvTraceFail (Some e)) (fst (processRunner NewBuild env id runner)) = 0%nat.
Proof.
  intros env. split; [reflexivity|]. rewrite processRunner_paths. simpl.
  split; count_events.
Qed.

(** The worker drops what [processRunner] returns: its log is the same
    whether the job fails or not, apart from the events of the job. *)
Lemma processRunners_ignores_error id t rest runner env :
  stopSignal_seen t = None → select_worker t = GotRunner runner env →
  processRunners NewBuild id (t :: rest)
  = EvRecv (kind (provider runner)) (runner_config runner) (data runner)
    :: fst (processRunner NewBuild env id runner) ++ [EvGC] ++ processRunners NewBuild id rest.
Proof. intros H1 H2. simpl. by rewrite H1, H2. Qed.

(** C3, as stated, fails: the provider says it cannot create an executor,
    and the feeder acquires and sends a slot all the same. *)
Lemma feedRunner_acquires_when_CanCreate_is_false :
  registry false (Executor runnerA) = Some (shellProvider false) ∧
  CanCreate (shellProvider false) = false ∧
  fst (feedRunner (λ _, true) (registry false) runnerA)
  = [EvAcquire "shell" runnerA; EvSend "shell" runnerA 41].
Proof. repeat split; reflexivity. Qed.

(** C3, as amended. For every runner the feeder skips the runner (no
    [Acquire], no slot sent) when the runner is unhealthy or no provider is
    registered for its executor; otherwise it calls [Acquire] exactly once,
    without consulting [CanCreate()], and sends a slot exactly when
    [Acquire] returned no error. *)
Theorem feedRunner_skips_and_acquires (isHealthy : string → bool)
    (GetExecutor : string → option ExecutorProvider) (runner : RunnerConfig) :
  let log := fst (feedRunner isHealthy GetExecutor runner) in
  let sent := snd (feedRunner isHealthy GetExecutor runner) in
  (∀ k, EvCanCreate k ∉ log) ∧
  match isHealthy (UniqueID runner), GetExecutor (Executor runner) with
  | false, _ | true, None => log = [] ∧ sent = None
  | true, Some provider =>
      count (EvAcquire (kind provider) runner) log = 1%nat ∧
      (is_Some sent ↔ snd (Acquire provider runner) = None) ∧
      (EvSend (kind provider) runner (fst (Acquire provider runner)) ∈ log ↔ is_Some sent) ∧
      (∀ slot, sent = Some slot →
               slot = {| runner_config := runner; provider := provider;
                         data := fst (Acquire provider runner) |})
  end.
Proof.
  unfold feedRunner.
  destruct (isHealthy (UniqueID runner)); simpl;
    [|split; [intros k H; absent H | done]].
  destruct (GetExecutor (Executor runner)) as [provider|]; simpl;
    [|split; [intros k H; absent H | done]].
  destruct (Acquire provider runner) as [d [e|]]; simpl.
  - split; [intros k H; absent H|]. split; [count_events|].
    split; [split; [intros [? ?]; discriminate | discriminate]|].
    split; [|discriminate]. split; [intros H; absent H | intros [? ?]; discriminate].
  - split; [intros k H; absent H|]. split; [count_events|].
    split; [split; eauto|]. split; [|congruence]. split; [eauto | intros _; present].
Qed.

End Slot_facts.

(** ** commands: configuration reload *)

Section Reload_facts.
Import Go Common Commands.
Variable os_Stat : string → Time * option error.
Variable configOptions_loadConfig : RunCommand → RunCommand * option error.

Lemma loadConfig_calls mr :
  reloaded (snd (fst (loadConfig configOptions_loadConfig mr))) = true.
Proof.
  unfold loadConfig.
  destruct (configOptions_loadConfig mr) as [mr1 [e|]]; simpl;
    apply bool_decide_eq_true; present.
Qed.



End Reload_facts.


Example checkConfig_broken_file_twice :
  let stat := λ _ : string, (150, @None Go.error) in
  let load := Commands.loadFresh
                (λ _ : string, (Commands.sampleConfig, Some (Go.mkError "bad toml"))) in
  let first := Commands.checkConfig stat load Commands.sampleCommand in
  snd first = Some (Go.mkError "bad toml") ∧
  Commands.ModTime (Commands.config (fst (fst first))) = 150 ∧
  Commands.Runners (Commands.config (fst (fst first))) = [Common.runnerA; Common.runnerB] ∧
  snd (fst (Commands.checkConfig stat load (fst (fst first))))
  = [Commands.EvStat "/etc/gitlab-runner/config.toml"].
Proof. repeat split; reflexivity. Qed.

Example checkConfig_good_file :
  let stat := λ _ : string, (150, @None Go.error) in
  let fresh := Commands.set_ModTime 150 Commands.sampleConfig in
  let load := Commands.loadFresh (λ _ : string, (fresh, None)) in
  Commands.checkConfig stat load Commands.sampleCommand
  = (Commands.set_healthy ∅ (Commands.set_config fresh Commands.sampleCommand),
     [Commands.EvStat "/etc/gitlab-runner/config.toml"; Commands.EvLoadConfig;
      Commands.EvLog "info" "Config loaded:"], None).
Proof. reflexivity. Qed.

(** ** commands: forced shutdown *)

Section Shutdown_facts.
Import Go Common Commands.

(** C7, as stated, fails on the message of the timeout: the code's error
    reads "shutdown timedout". *)
Lemma handleShutdown_timeout_message :
  snd (handleShutdown sampleCommand WTimeout) = Some (mkError "shutdown timedout") ∧
  snd (handleShutdown sampleCommand WTimeout) ≠ Some (mkError "shutdown timed out").
Proof. split; [reflexivity | discriminate]. Qed.

(** C7, as amended. [handleShutdown] first starts the abort pump; then it
    returns nil when [runFinished] is received first; an error with the
    message "forced exit: " followed by the name of the new signal (which
    it stores in [stopSignal]) when another stop signal arrives first; and
    an error with the message "shutdown timedout" when the timer of
    [ShutdownTimeout] seconds fires first. *)
Theorem handleShutdown_outcomes (mr : RunCommand) (first : Wakeup) :
  let '(mr', log, err) := handleShutdown mr first in
  EvGo "abortAllBuilds" ∈ log ∧
  match first with
  | WRunFinished => err = None ∧ mr' = mr
  | WSignal s =>
      err = Some (mkError ("forced exit: " +:+ Signal_String s)) ∧
      (∀ e, err = Some e → HasPrefix (Error e) "forced exit" = true) ∧
      mr' = set_stopSignal (Some s) mr
  | WTimeout => err = Some (mkError "shutdown timedout") ∧ mr' = mr
  end.
Proof.
  destruct first as [s| |]; simpl; (split; [set_solver|]); try done.
  repeat split. intros e [= <-]. reflexivity.
Qed.

(** [Stop] reaches the forced phase exactly when the graceful phase ends
    with an error, and then returns what [handleShutdown] returns. *)
Lemma Stop_forced mr graceful first mr1 e :
  handleGracefulShutdown mr graceful = (mr1, Some (Some e)) →
  snd (Stop mr graceful first) = Some (snd (handleShutdown mr1 first)).
Proof.
  intros H. unfold Stop. rewrite H.
  by destruct (handleShutdown mr1 first) as [[? ?] ?].
Qed.

Example Stop_quit_then_term_then_timeout :
  snd (Stop (set_stopSignal (Some SIGQUIT) sampleCommand) [GSignal SIGTERM] WTimeout)
  = Some (Some (mkError "shutdown timedout")).
Proof. reflexivity. Qed.

Example Stop_term_then_interrupt :
  snd (Stop (set_stopSignal (Some SIGTERM) sampleCommand) [] (WSignal SIGINT))
  = Some (Some (mkError "forced exit: interrupt")).
Proof. reflexivity. Qed.

Example abortAllBuilds_pumps :
  abortAllBuilds (set_stopSignal (Some SIGTERM) sampleCommand) 3
  = [Some SIGTERM; Some SIGTERM; Some SIGTERM].
Proof. reflexivity. Qed.

End Shutdown_facts.

(** ** commands_helpers: the archive command *)

Section Archive_facts.
Import Go CommandsHelpers.

Lemma warnings_not_listing log :
  forallb isWarning log = true → lists_or_rebuilds log = false.
Proof.
  unfold lists_or_rebuilds. induction log as [|e log IH]; simpl; [done|].
  intros [He Hl]%andb_true_iff. rewrite (IH Hl). by destruct e.
Qed.

Lemma lists_or_rebuilds_app log1 log2 :
  lists_or_rebuilds (log1 ++ log2) = lists_or_rebuilds log1 || lists_or_rebuilds log2.
Proof. apply existsb_app. Qed.

Lemma add_warns os c path info : forallb isWarning (snd (fst (add os c path info))) = true.
Proof.
  unfold add. destruct info as [info|]; simpl; [done|].
  destruct (Lstat os path) as [info|e]; simpl; [done|].
  by destruct (IsNotExist os e).
Qed.

Lemma process_warns os c m : forallb isWarning (snd (fst (process os c m))) = true.
Proof.
  unfold process. destruct (Abs os m) as [a [e|]]; simpl; [done|].
  destruct (Rel os (wd c) a) as [r [e|]]; simpl; [done|].
  destruct (HasPrefix r _); apply add_warns.
Qed.

Lemma walk_warns os c paths : forallb isWarning (snd (fst (walk os c paths))) = true.
Proof.
  revert c. induction paths as [|path rest IH]; intros c; simpl; [done|].
  pose proof (process_warns os c path) as Hp.
  destruct (process os c path) as [[c1 log] [e|]]; simpl in *; [done|].
  specialize (IH c1). destruct (walk os c1 rest) as [[c2 log'] err]; simpl in *.
  by rewrite forallb_app, Hp, IH.
Qed.

Lemma processMatches_warns os c matches :
  forallb isWarning (snd (processMatches os c matches)) = true.
Proof.
  unfold processMatches.
  assert (H : forallb isWarning (snd (c, @nil Event)) = true) by done.
  revert H. generalize (c, @nil Event). induction matches as [|m rest IH]; intros acc H;
    simpl; [done|].
  apply IH. destruct acc as [c0 log]. simpl in H.
  pose proof (walk_warns os c0 (Walk os m)) as Hw.
  destruct (walk os c0 (Walk os m)) as [[c1 log'] [e|]]; simpl in *;
    rewrite !forallb_app, H, Hw; done.
Qed.

Lemma processPaths_warns os c : forallb isWarning (snd (processPaths os c)) = true.
Proof.
  unfold processPaths.
  assert (H : forallb isWarning (snd (c, @nil Event)) = true) by done.
  revert H. generalize (c, @nil Event). generalize (Paths c).
  induction l as [|path rest IH]; intros acc H; simpl; [done|].
  apply IH. destruct acc as [c0 log]. simpl in H.
  destruct (Glob os path) as [matches [e|]]; simpl.
  - by rewrite forallb_app, H.
  - pose proof (processMatches_warns os c0 matches) as Hm.
    destruct (processMatches os c0 matches) as [c1 log']; simpl in *.
    by rewrite forallb_app, H, Hm.
Qed.

Lemma processUntracked_warns os c : forallb isWarning (snd (processUntracked os c)) = true.
Proof.
  unfold processUntracked. destruct (Untracked c); simpl; [|done].
  destruct (gitUntracked os) as [lines [e|]]; simpl; [done|].
  assert (H : forallb isWarning (snd (c, @nil Event)) = true) by done.
  revert H. generalize (c, @nil Event). induction lines as [|line rest IH]; intros acc H;
    simpl; [done|].
  apply IH. destruct acc as [c0 log]. simpl in H.
  pose proof (process_warns os c0 line) as Hp.
  destruct (process os c0 line) as [[c1 log'] err]; simpl in *.
  by rewrite forallb_app, H, Hp.
Qed.










Lemma existsb_forallb_false {A} (P Q : A → bool) (l : list A) :
  (∀ x, P x = true → Q x = false) → forallb P l = true → existsb Q l = false.
Proof.
  intros HPQ. induction l as [|x l IH]; simpl; [done|].
  intros [Hx Hl]%andb_true_iff. by rewrite (HPQ x Hx), (IH Hl).
Qed.




(** The archivers do what [archiverEvent] allows, and print entries only
    under [Verbose]. *)
Lemma zipFiles_events os c fileNames :
  forallb (archiverEvent (Verbose c)) (fst (zipFiles os c fileNames)) = true.
Proof.
  induction fileNames as [|fileName rest IH]; [done|]. cbn [zipFiles].
  destruct (LstatArchiving os fileName) as [fi|e];
    [|destruct (zipFiles os c rest) as [log err]; exact IH].
  assert (Hstep : ∀ name log err,
            forallb (archiverEvent (Verbose c)) log = true →
            forallb (archiverEvent (Verbose c))
              (fst (match err with
                    | Some err => (log, Some err)
                    | None =>
                        let log := log ++ (if Verbose c then [EvPrintf name] else []) in
                        let '(log', err) := zipFiles os c rest in (log ++ log', err)
                    end)) = true).
  { intros name log [e|] Hlog; simpl; [done|].
    destruct (zipFiles os c rest) as [log' err']. simpl in *.
    rewrite !forallb_app, Hlog, IH. by destruct (Verbose c). }
  destruct (Z.land (Mode fi) ModeType =? ModeDir); [by apply Hstep|].
  destruct (Z.land (Mode fi) ModeType =? ModeSymlink).
  { destruct (CreateHeader os fileName); [done|].
    destruct (Readlink os fileName) as [link [e|]]; [done|].
    by apply (Hstep fileName _ None). }
  destruct ((Z.land (Mode fi) ModeType =? ModeNamedPipe)
            || (Z.land (Mode fi) ModeType =? ModeSocket)
            || (Z.land (Mode fi) ModeType =? ModeDevice));
    [by apply (Hstep fileName _ None)|].
  destruct (CreateHeader os fileName); [done|].
  destruct (Open os fileName); [done|]. by apply Hstep.
Qed.

Lemma createArchive_events os c fileNames :
  forallb (archiverEvent (Verbose c)) (fst (createArchive os c fileNames)) = true.
Proof.
  unfold createArchive. destruct (isTarArchive (File c)).
  { unfold createTarArchive. by destruct (Verbose c). }
  destruct (isZipArchive (File c)); [|done].
  unfold createZipArchive. pose proof (zipFiles_events os c fileNames) as H.
  destruct (zipFiles os c fileNames) as [log err]. simpl in *.
  rewrite !forallb_app, H. by destruct (NoProgress c).
Qed.





Lemma add_List os c path info : List (fst (fst (add os c path info))) = List c.
Proof.
  unfold add. destruct info as [info|]; simpl; [done|].
  destruct (Lstat os path) as [info|e]; simpl; [done|].
  by destruct (IsNotExist os e).
Qed.

Lemma process_List os c m : List (fst (fst (process os c m))) = List c.
Proof.
  unfold process. destruct (Abs os m) as [a [e|]]; simpl; [done|].
  destruct (Rel os (wd c) a) as [r [e|]]; simpl; [done|].
  destruct (HasPrefix r _); apply add_List.
Qed.

Lemma walk_List os c paths : List (fst (fst (walk os c paths))) = List c.
Proof.
  revert c. induction paths as [|path rest IH]; intros c; simpl; [done|].
  pose proof (process_List os c path) as Hp.
  destruct (process os c path) as [[c1 log] [e|]]; simpl in *; [done|].
  specialize (IH c1). destruct (walk os c1 rest) as [[c2 log'] err]; simpl in *.
  congruence.
Qed.

Lemma processMatches_List os c matches : List (fst (processMatches os c matches)) = List c.
Proof.
  unfold processMatches.
  assert (H : List (fst (c, @nil Event)) = List c) by done.
  revert H. generalize (c, @nil Event). induction matches as [|m rest IH]; intros acc H;
    simpl; [done|].
  apply IH. destruct acc as [c0 log]. simpl in H.
  pose proof (walk_List os c0 (Walk os m)) as Hw.
  destruct (walk os c0 (Walk os m)) as [[c1 log'] [e|]]; simpl in *; congruence.
Qed.

Lemma processPaths_List os c : List (fst (processPaths os c)) = List c.
Proof.
  unfold processPaths.
  assert (H : List (fst (c, @nil Event)) = List c) by done.
  revert H. generalize (c, @nil Event). generalize (Paths c).
  induction l as [|path rest IH]; intros acc H; simpl; [done|].
  apply IH. destruct acc as [c0 log]. simpl in H.
  destruct (Glob os path) as [matches [e|]]; simpl; [done|].
  pose proof (processMatches_List os c0 matches) as Hm.
  destruct (processMatches os c0 matches) as [c1 log']; simpl in *. congruence.
Qed.

Lemma processUntracked_List os c : List (fst (processUntracked os c)) = List c.
Proof.
  unfold processUntracked. destruct (Untracked c); simpl; [|done].
  destruct (gitUntracked os) as [lines [e|]]; simpl; [done|].
  assert (H : List (fst (c, @nil Event)) = List c) by done.
  revert H. generalize (c, @nil Event). induction lines as [|line rest IH]; intros acc H;
    simpl; [done|].
  apply IH. destruct acc as [c0 log]. simpl in H.
  pose proof (process_List os c0 line) as Hp.
  destruct (process os c0 line) as [[c1 log'] err]; simpl in *. congruence.
Qed.

Lemma add_Verbose os c path info : Verbose (fst (fst (add os c path info))) = Verbose c.
Proof.
  unfold add. destruct info as [info|]; simpl; [done|].
  destruct (Lstat os path) as [info|e]; simpl; [done|].
  by destruct (IsNotExist os e).
Qed.

Lemma process_Verbose os c m : Verbose (fst (fst (process os c m))) = Verbose c.
Proof.
  unfold process. destruct (Abs os m) as [a [e|]]; simpl; [done|].
  destruct (Rel os (wd c) a) as [r [e|]]; simpl; [done|].
  destruct (HasPrefix r _); apply add_Verbose.
Qed.

Lemma walk_Verbose os c paths : Verbose (fst (fst (walk os c paths))) = Verbose c.
Proof.
  revert c. induction paths as [|path rest IH]; intros c; simpl; [done|].
  pose proof (process_Verbose os c path) as Hp.
  destruct (process os c path) as [[c1 log] [e|]]; simpl in *; [done|].
  specialize (IH c1). destruct (walk os c1 rest) as [[c2 log'] err]; simpl in *.
  congruence.
Qed.

Lemma processMatches_Verbose os c matches : Verbose (fst (processMatches os c matches)) = Verbose c.
Proof.
  unfold processMatches.
  assert (H : Verbose (fst (c, @nil Event)) = Verbose c) by done.
  revert H. generalize (c, @nil Event). induction matches as [|m rest IH]; intros acc H;
    simpl; [done|].
  apply IH. destruct acc as [c0 log]. simpl in H.
  pose proof (walk_Verbose os c0 (Walk os m)) as Hw.
  destruct (walk os c0 (Walk os m)) as [[c1 log'] [e|]]; simpl in *; congruence.
Qed.

Lemma processPaths_Verbose os c : Verbose (fst (processPaths os c)) = Verbose c.
Proof.
  unfold processPaths.
  assert (H : Verbose (fst (c, @nil Event)) = Verbose c) by done.
  revert H. generalize (c, @nil Event). generalize (Paths c).
  induction l as [|path rest IH]; intros acc H; simpl; [done|].
  apply IH. destruct acc as [c0 log]. simpl in H.
  destruct (Glob os path) as [matches [e|]]; simpl; [done|].
  pose proof (processMatches_Verbose os c0 matches) as Hm.
  destruct (processMatches os c0 matches) as [c1 log']; simpl in *. congruence.
Qed.

Lemma processUntracked_Verbose os c : Verbose (fst (processUntracked os c)) = Verbose c.
Proof.
  unfold processUntracked. destruct (Untracked c); simpl; [|done].
  destruct (gitUntracked os) as [lines [e|]]; simpl; [done|].
  assert (H : Verbose (fst (c, @nil Event)) = Verbose c) by done.
  revert H. generalize (c, @nil Event). induction lines as [|line rest IH]; intros acc H;
    simpl; [done|].
  apply IH. destruct acc as [c0 log]. simpl in H.
  pose proof (process_Verbose os c0 line) as Hp.
  destruct (process os c0 line) as [[c1 log'] err]; simpl in *. congruence.
Qed.


Example Execute_archive_older :
  Execute (sampleOS 65) sampleArchive
  = [EvMkdirAll "out"; EvTempFile "out" "archive_";
     EvExec "tar" ["-zcP"; "-T"; "-"; "--no-recursion"]
       ("vendor" +:+ String newline ("vendor/a.go" +:+ String newline
          ("vendor/b.go" +:+ String newline "")));
     EvClose "out/archive_123456";
     EvRename "out/archive_123456" "out/cache.tgz" None;
     EvRemove "out/archive_123456"; EvClose "out/archive_123456"].
Proof. vm_compute. reflexivity. Qed.

Example Execute_archive_as_new_as_newest :
  Execute (sampleOS 70) sampleArchive = [EvInfo "Archive is up to date!"].
Proof. vm_compute. reflexivity. Qed.

Example Execute_zip_verbose :
  Execute (sampleOSwith "out/cache.zip" 65)
    {| Paths := ["vendor"]; Untracked := false; File := "out/cache.zip"; Verbose := true;
       List := true; NoProgress := false; wd := ""; files := ∅; totalSize := 0 |}
  = [EvInfo "Creating archive"; EvMkdirAll "out"; EvTempFile "out" "archive_";
     EvCreateHeader "vendor/" false; EvPrintf "vendor/";
     EvCreateHeader "vendor/a.go" true; EvOpen "vendor/a.go";
     EvCopy "vendor/a.go" false; EvClose "vendor/a.go"; EvPrintf "vendor/a.go";
     EvCreateHeader "vendor/b.go" true; EvOpen "vendor/b.go";
     EvCopy "vendor/b.go" false; EvClose "vendor/b.go"; EvPrintf "vendor/b.go";
     EvZipClose;
     EvClose "out/archive_123456";
     EvRename "out/archive_123456" "out/cache.zip" None;
     EvInfo "Done!";
     EvRemove "out/archive_123456"; EvClose "out/archive_123456"].
Proof. vm_compute. reflexivity. Qed.


End Archive_facts.



(** ** shells: GenerateCommands *)

Section Generate_facts.
Import Go Common Shells.
Variable TrimSpace : string → string.
Variable ToSlash : string → string.
Variable Runner_GetVariables : RunnerConfig → list BuildVariable.
Variable Expand : list BuildVariable → list BuildVariable.

Lemma writeCommand_shape command :
  writeCommand TrimSpace command
  = [announce (TrimSpace command); WLine (TrimSpace command); WCheckForErrors].
Proof.
  unfold writeCommand, announce. by destruct (String.eqb (TrimSpace command) "").
Qed.

Lemma announce_neither text :
  isLine (announce text) = false ∧ isCheck (announce text) = false.
Proof. unfold announce. by destruct (String.eqb text ""). Qed.

Lemma checked_app (l1 l2 : list WriterCall) : checked l1 → checked l2 → checked (l1 ++ l2).
Proof.
  intros [L1 C1] [L2 C2]. split.
  - intros i text [Hi|[Hlen Hi]]%lookup_app_Some.
    + destruct (L1 i text Hi) as (Hn & j & -> & Hj).
      split; [by apply lookup_app_l_Some|].
      exists j. split; [done|]. by apply lookup_app_l_Some.
    + destruct (L2 _ text Hi) as (Hn & j & Hij & Hj). split.
      * rewrite lookup_app_r by lia. rewrite <- Hn. f_equal. lia.
      * exists (length l1 + j)%nat. split; [lia|].
        rewrite lookup_app_r by lia. rewrite <- Hj. f_equal. lia.
  - intros i [Hi|[Hlen Hi]]%lookup_app_Some.
    + destruct (C1 i Hi) as (j & text & -> & Hj).
      exists j, text. split; [done|]. by apply lookup_app_l_Some.
    + destruct (C2 _ Hi) as (j & text & Hij & Hj).
      exists (length l1 + j)%nat, text. split; [lia|].
      rewrite lookup_app_r by lia. rewrite <- Hj. f_equal. lia.
Qed.

Lemma checked_quiet (l : list WriterCall) :
  forallb (λ c, negb (isLine c) && negb (isCheck c)) l = true → checked l.
Proof.
  intros H. rewrite forallb_forall in H. split.
  - intros i text Hi. apply list_elem_of_lookup_2, list_elem_of_In, H in Hi. discriminate.
  - intros i Hi. apply list_elem_of_lookup_2, list_elem_of_In, H in Hi. discriminate.
Qed.

Lemma quiet_no_lines (l : list WriterCall) :
  forallb (λ c, negb (isLine c) && negb (isCheck c)) l = true →
  omap lineText l = [] ∧ List.filter isCheck l = [].
Proof.
  induction l as [|c l IH]; [done|].
  intros H. cbn [forallb] in H. apply andb_true_iff in H as [Hc Hl].
  destruct (IH Hl) as [E1 E2].
  destruct c; simpl in *; try discriminate; rewrite ?E1, ?E2; done.
Qed.

Lemma checked_writeCommand command : checked (writeCommand TrimSpace command).
Proof.
  rewrite writeCommand_shape. destruct (announce_neither (TrimSpace command)) as [HL HC].
  split.
  - intros [|[|[|i]]] text Hi; simpl in Hi; simplify_eq.
    + rewrite Hi in HL. discriminate.
    + split; [done|]. by exists 0%nat.
  - intros [|[|[|i]]] Hi; simpl in Hi; simplify_eq.
    + rewrite Hi in HC. discriminate.
    + by exists 1%nat, (TrimSpace command).
Qed.

Lemma foldl_writeCommand (w : list WriterCall) (lines : list string) :
  foldl (λ w command, w ++ writeCommand TrimSpace command) w lines
  = w ++ flat_map (writeCommand TrimSpace) lines.
Proof.
  revert w. induction lines as [|l lines IH]; intros w; simpl.
  - by rewrite app_nil_r.
  - by rewrite IH, app_assoc.
Qed.

Lemma checked_commands lines : checked (flat_map (writeCommand TrimSpace) lines).
Proof.
  induction lines as [|l lines IH]; simpl.
  - by apply checked_quiet.
  - apply checked_app; [apply checked_writeCommand | done].
Qed.

Lemma lines_of_commands lines :
  omap lineText (flat_map (writeCommand TrimSpace) lines) = TrimSpace <$> lines ∧
  length (List.filter isCheck (flat_map (writeCommand TrimSpace) lines)) = length lines.
Proof.
  induction lines as [|l lines [IH1 IH2]]; simpl; [done|].
  rewrite writeCommand_shape, omap_app, List.filter_app, length_app, IH1, IH2.
  destruct (announce_neither (TrimSpace l)) as [HL HC].
  simpl. rewrite HC. simpl. split; [|done].
  destruct (announce (TrimSpace l)); simpl in *; done.
Qed.

Lemma preamble_quiet build :
  forallb (λ c, negb (isLine c) && negb (isCheck c))
    (writeExports ToSlash Runner_GetVariables Expand build ++ writeCdBuildDir ToSlash build)
  = true.
Proof.
  rewrite forallb_app. simpl. rewrite andb_true_r.
  unfold writeExports. induction (GetAllVariables _ _ _ _); simpl; done.
Qed.

(** C10. [GenerateCommands] splits the whitespace-trimmed [build.Commands]
    on newlines and, for each resulting line, in order, writes the
    (whitespace-trimmed) line to the script, followed immediately by
    [CheckForErrors] and preceded immediately by the notice "$ <command>"
    when the trimmed line is not empty and by an empty output line when it
    is; the script has as many error checks as lines, and every error check
    comes right after a line. *)
Theorem GenerateCommands_checks_every_line (build : Build) :
  let lines := SplitLines (TrimSpace (Commands (Response build))) in
  let script := GenerateCommands TrimSpace ToSlash Runner_GetVariables Expand build in
  omap lineText script = TrimSpace <$> lines ∧
  length (List.filter isCheck script) = length lines ∧
  (∀ i text, script !! i = Some (WLine text) →
     script !! S i = Some WCheckForErrors ∧
     ∃ j, i = S j ∧
          script !! j = Some (if String.eqb text "" then WEmptyLine
                              else WNotice "$ %s" text)) ∧
  (∀ i, script !! i = Some WCheckForErrors →
     ∃ j text, i = S j ∧ script !! j = Some (WLine text)).
Proof.
  intros lines script. subst script. unfold GenerateCommands.
  rewrite foldl_writeCommand. fold lines.
  pose proof (preamble_quiet build) as Hq.
  destruct (lines_of_commands lines) as [HL HC].
  split; [|split].
  - by rewrite omap_app, HL, (proj1 (quiet_no_lines _ Hq)).
  - by rewrite List.filter_app, length_app, HC, (proj2 (quiet_no_lines _ Hq)).
  - apply (checked_app _ _ (checked_quiet _ Hq) (checked_commands lines)).
Qed.

End Generate_facts.

Example SplitLines_samples :
  Go.SplitLines "" = [""] ∧
  Go.SplitLines "make" = ["make"] ∧
  Go.SplitLines (String "a" (String Go.newline (String Go.newline "b"))) = ["a"; ""; "b"].
Proof. repeat split; reflexivity. Qed.

Example GenerateCommands_sample :
  Shells.GenerateCommands Shells.TrimSpaceASCII id (λ _, []) (λ _, [])
    {| Common.Response :=
         Common.mkResponse 1 7
           (String " " (String "a" (String Go.newline (String " " (String Go.newline "b ")))));
       Common.BuildDir := "/builds/x"; Common.Runner := Common.runnerA;
       Common.GlobalID := 0; Common.RunnerID := 0; Common.ProjectRunnerID := 0 |}
  = [Shells.WCd "/builds/x";
     Shells.WNotice "$ %s" "a"; Shells.WLine "a"; Shells.WCheckForErrors;
     Shells.WEmptyLine; Shells.WLine ""; Shells.WCheckForErrors;
     Shells.WNotice "$ %s" "b"; Shells.WLine "b"; Shells.WCheckForErrors].
Proof. reflexivity. Qed.

(** ** commands: the worker pool supervisor *)

Section Pool_facts.
Import Go Common Commands.

Local Ltac pool_side :=
  change (stops []) with 0; change (starts []) with 0;
  repeat split; try lia; try (intros; discriminate); try (intros; lia).

Lemma starts_app l1 l2 : starts (l1 ++ l2) = starts l1 + starts l2.
Proof. unfold starts. rewrite List.filter_app, length_app. lia. Qed.

Lemma stops_app l1 l2 : stops (l1 ++ l2) = stops l1 + stops l2.
Proof. unfold stops. rewrite List.filter_app, length_app. lia. Qed.

Lemma starts_cons_stop l : starts (SendStop :: l) = starts l.
Proof. reflexivity. Qed.

Lemma stops_cons_stop l : stops (SendStop :: l) = 1 + stops l.
Proof. unfold stops. simpl. lia. Qed.

Lemma starts_cons_start id l : starts (SendStart id :: l) = 1 + starts l.
Proof. unfold starts. simpl. lia. Qed.

Lemma stops_cons_start id l : stops (SendStart id :: l) = stops l.
Proof. reflexivity. Qed.

(** The first loop only stops workers, counts them, and never goes below
    the limit. *)
Lemma retire_counts limit cur sched :
  int_min ≤ limit → cur ≤ int_max →
  ∀ c sends rest e, retire limit cur sched = (c, sends, rest, e) →
    starts sends = 0 ∧ c = cur - stops sends ∧
    Z.min cur limit ≤ c ≤ cur ∧ (e = LoopDone → c ≤ limit) ∧
    (limit < cur → e = LoopDone → c = limit).
Proof.
  intros Hl. revert cur. induction sched as [|x sched IH]; intros cur Hc c sends rest e.
  - simpl. destruct (Z.gtb_spec cur limit); intros [= <- <- <- <-];
      cbn; pool_side.
  - simpl. destruct (Z.gtb_spec cur limit) as [Hgt|Hle].
    + destruct x as [|sig].
      * rewrite int_wrap_id by (unfold int_min, int_max in *; lia).
        destruct (retire limit (cur - 1) sched) as [[[c1 s1] r1] e1] eqn:E.
        intros [= <- <- <- <-].
        destruct (IH (cur - 1) ltac:(lia) _ _ _ _ E) as (H1 & H2 & H3 & H4 & H5).
        rewrite starts_cons_stop, stops_cons_stop.
        repeat split; try lia; try (intros; apply H4; done).
        intros _ He. destruct (decide (limit < cur - 1)); [by apply H5|].
        specialize (H4 He). lia.
      * intros [= <- <- <- <-]. cbn. pool_side.
    + intros [= <- <- <- <-]. cbn. pool_side.
Qed.

(** The second loop only starts workers, counts them, and never goes above
    the limit. *)
Lemma spawn_counts limit cur idx sched :
  limit ≤ int_max → int_min ≤ cur →
  ∀ c i sends rest e, spawn limit cur idx sched = (c, i, sends, rest, e) →
    stops sends = 0 ∧ c = cur + starts sends ∧
    cur ≤ c ≤ Z.max cur limit ∧ (e = LoopDone → limit ≤ c) ∧
    (cur < limit → e = LoopDone → c = limit).
Proof.
  intros Hl. revert cur idx.
  induction sched as [|x sched IH]; intros cur idx Hc c i sends rest e.
  - simpl. destruct (Z.ltb_spec cur limit); intros [= <- <- <- <- <-];
      cbn; pool_side.
  - simpl. destruct (Z.ltb_spec cur limit) as [Hlt|Hge].
    + destruct x as [|sig].
      * unfold int_incr at 1. rewrite int_wrap_id by (unfold int_min, int_max in *; lia).
        destruct (spawn limit (cur + 1) (int_incr idx) sched) as [[[[c1 i1] s1] r1] e1] eqn:E.
        intros [= <- <- <- <- <-].
        destruct (IH (cur + 1) _ ltac:(lia) _ _ _ _ _ E) as (H1 & H2 & H3 & H4 & H5).
        rewrite starts_cons_start, stops_cons_start.
        repeat split; try lia; try (intros; apply H4; done).
        intros _ He. destruct (decide (cur + 1 < limit)); [by apply H5|].
        specialize (H4 He). lia.
      * intros [= <- <- <- <- <-]. cbn. pool_side.
    + intros [= <- <- <- <- <-]. cbn. pool_side.
Qed.

(** The identifiers handed out are consecutive, from [workerIndex] on. *)
Lemma spawn_ids limit cur idx sched :
  limit ≤ int_max → int_min ≤ cur → int_min ≤ idx → idx + (limit - cur) ≤ int_max →
  ∀ c i sends rest e, spawn limit cur idx sched = (c, i, sends, rest, e) →
    omap startedId sends = seqZ idx (starts sends) ∧ i = idx + starts sends.
Proof.
  intros Hl. revert cur idx.
  induction sched as [|x sched IH]; intros cur idx Hc Hi Hroom c i sends rest e.
  - simpl. destruct (Z.ltb_spec cur limit); intros [= <- <- <- <- <-]; change (starts []) with 0; (split; [reflexivity | lia]).
  - simpl. destruct (Z.ltb_spec cur limit) as [Hlt|Hge].
    + destruct x as [|sig].
      * unfold int_incr. rewrite !int_wrap_id by (unfold int_min, int_max in *; lia).
        destruct (spawn limit (cur + 1) (idx + 1) sched) as [[[[c1 i1] s1] r1] e1] eqn:E.
        intros [= <- <- <- <- <-].
        destruct (IH (cur + 1) (idx + 1) ltac:(lia) ltac:(lia) ltac:(lia) _ _ _ _ _ E)
          as [H1 H2].
        rewrite starts_cons_start.
        change (omap startedId (SendStart idx :: s1)) with (idx :: omap startedId s1).
        rewrite H1.
        split; [|lia].
        assert (0 ≤ starts s1) by (unfold starts; lia).
        rewrite (seqZ_cons idx (1 + starts s1)) by lia.
        do 2 f_equal; lia.
      * intros [= <- <- <- <- <-]. change (starts []) with 0; (split; [reflexivity | lia]).
    + intros [= <- <- <- <- <-]. change (starts []) with 0; (split; [reflexivity | lia]).
Qed.

Lemma retire_unfold limit cur sched :
  retire limit cur sched =
  if cur >? limit then
    match sched with
    | [] => (cur, [], [], LoopBlocked)
    | SendDone :: sched' =>
        let '(c, sends, rest, e) := retire limit (int_wrap (cur - 1)) sched' in
        (c, SendStop :: sends, rest, e)
    | RunSignal signaled :: sched' => (cur, [], sched', LoopReturn signaled)
    end
  else (cur, [], sched, LoopDone).
Proof. by destruct sched. Qed.

Lemma spawn_unfold limit cur idx sched :
  spawn limit cur idx sched =
  if cur <? limit then
    match sched with
    | [] => (cur, idx, [], [], LoopBlocked)
    | SendDone :: sched' =>
        let '(c, i, sends, rest, e) :=
          spawn limit (int_incr cur) (int_incr idx) sched' in
        (c, i, SendStart idx :: sends, rest, e)
    | RunSignal signaled :: sched' => (cur, idx, [], sched', LoopReturn signaled)
    end
  else (cur, idx, [], sched, LoopDone).
Proof. by destruct sched. Qed.

Lemma retire_all limit (k : nat) cur rest :
  int_min ≤ limit → cur ≤ int_max → cur = limit + Z.of_nat k →
  retire limit cur (repeat SendDone k ++ rest) = (limit, repeat SendStop k, rest, LoopDone).
Proof.
  intros Hl. revert cur. induction k as [|k IH]; intros cur Hc Hk.
  - rewrite retire_unfold. destruct (Z.gtb_spec cur limit); [lia|].
    simpl. f_equal. f_equal. f_equal. lia.
  - rewrite retire_unfold. destruct (Z.gtb_spec cur limit); [|lia]. simpl.
    rewrite int_wrap_id by (unfold int_min, int_max in *; lia).
    by rewrite (IH (cur - 1)) by lia.
Qed.

Lemma spawn_all limit (k : nat) cur idx rest :
  limit ≤ int_max → int_min ≤ cur → int_min ≤ idx → idx + Z.of_nat k ≤ int_max →
  limit = cur + Z.of_nat k →
  spawn limit cur idx (repeat SendDone k ++ rest)
  = (limit, idx + Z.of_nat k, SendStart <$> seqZ idx (Z.of_nat k), rest, LoopDone).
Proof.
  intros Hl. revert cur idx. induction k as [|k IH]; intros cur idx Hc Hi Hroom Hk.
  - rewrite spawn_unfold. destruct (Z.ltb_spec cur limit); [lia|].
    simpl. do 4 f_equal; lia.
  - rewrite spawn_unfold. destruct (Z.ltb_spec cur limit); [|lia]. simpl.
    unfold int_incr. rewrite !int_wrap_id by (unfold int_min, int_max in *; lia).
    rewrite (IH (cur + 1) (idx + 1)) by lia.
    rewrite (seqZ_cons idx (Z.of_nat (S k))) by lia. rewrite fmap_cons.
    do 4 f_equal; [lia|]. do 3 f_equal; lia.
Qed.

Lemma updateWorkers_counts (mr : RunCommand) (cur idx : Z) (sched : list WorkerSelect) :
  int_min ≤ Concurrent (config mr) ≤ int_max →
  int_min ≤ cur ≤ int_max →
  ∀ c i sends rest r, updateWorkers mr cur idx sched = (c, i, sends, rest, r) →
  c = cur + starts sends - stops sends ∧
  Z.min cur (Concurrent (config mr)) ≤ c ≤ Z.max cur (Concurrent (config mr)) ∧
  (starts sends = 0 ∨ stops sends = 0).
Proof.
  intros Hl Hc c i sends rest r. unfold updateWorkers.
  destruct (retire (Concurrent (config mr)) cur sched) as [[[c1 s1] r1] e1] eqn:E1.
  destruct (retire_counts (Concurrent (config mr)) cur sched ltac:(lia) ltac:(lia) _ _ _ _ E1)
    as (A1 & A2 & A3 & A4 & A5).
  destruct e1; [|intros [= <- <- <- <- <-]; repeat split; try lia; by left..].
  destruct (spawn (Concurrent (config mr)) c1 idx r1) as [[[[c2 i2] s2] r2] e2] eqn:E2.
  destruct (spawn_counts (Concurrent (config mr)) c1 idx r1 ltac:(lia) ltac:(lia) _ _ _ _ _ E2)
    as (B1 & B2 & B3 & B4 & B5).
  specialize (A4 eq_refl).
  assert (Hsum : c2 = cur + starts (s1 ++ s2) - stops (s1 ++ s2)
                 ∧ Z.min cur (Concurrent (config mr)) ≤ c2 ≤ Z.max cur (Concurrent (config mr))
                 ∧ (starts (s1 ++ s2) = 0 ∨ stops (s1 ++ s2) = 0)).
  { rewrite starts_app, stops_app. split; [lia|]. split; [lia|].
    destruct (decide (Concurrent (config mr) < cur)).
    - specialize (A5 ltac:(done) eq_refl). left.
      assert (0 ≤ starts s2) by (unfold starts; lia). lia.
    - right. assert (0 ≤ stops s1) by (unfold stops; lia). lia. }
  by destruct e2; intros [= <- <- <- <- <-].
Qed.

(** X1. Whatever the selects of [updateWorkers] do, the counter it leaves
    in [*currentWorkers] accounts for the sends it made (the old count plus
    the workers started minus the workers stopped), lies between the old
    count and the limit [config.Concurrent], and one call never both starts
    and stops workers. *)
Theorem updateWorkers_accounts_for_sends (mr : RunCommand) (cur idx : Z)
    (sched : list WorkerSelect) :
  int_min ≤ Concurrent (config mr) ≤ int_max →
  int_min ≤ cur ≤ int_max →
  let '(c, _, sends, _, _) := updateWorkers mr cur idx sched in
  c = cur + starts sends - stops sends ∧
  Z.min cur (Concurrent (config mr)) ≤ c ≤ Z.max cur (Concurrent (config mr)) ∧
  (starts sends = 0 ∨ stops sends = 0).
Proof.
  intros Hl Hc.
  destruct (updateWorkers mr cur idx sched) as [[[[c i] sends] rest] r] eqn:E.
  exact (updateWorkers_counts mr cur idx sched Hl Hc c i sends rest r E).
Qed.

Lemma updateWorkers_accounts_for_sends_witness :
  let '(c, _, sends, _, _) :=
    updateWorkers sampleCommand 5 9 [SendDone; SendDone; RunSignal (Some SIGTERM); SendDone] in
  c = 5 + starts sends - stops sends ∧
  Z.min 5 (Concurrent (config sampleCommand)) ≤ c ≤ Z.max 5 (Concurrent (config sampleCommand)) ∧
  (starts sends = 0 ∨ stops sends = 0).
Proof.
  apply (updateWorkers_accounts_for_sends sampleCommand 5 9
           [SendDone; SendDone; RunSignal (Some SIGTERM); SendDone]).
  - vm_compute. split; discriminate.
  - vm_compute. split; discriminate.
Defined.

(** X2. When every send of [updateWorkers] goes through, it brings the
    number of workers to [config.Concurrent] and returns nil: above the
    limit it sends exactly the excess on [stopWorker] and starts nobody;
    below it, it starts exactly the missing workers, with the consecutive
    identifiers [workerIndex, workerIndex+1, ...], and advances
    [*workerIndex] past them. *)
Theorem updateWorkers_reaches_limit (mr : RunCommand) (cur idx : Z)
    (rest : list WorkerSelect) :
  let limit := Concurrent (config mr) in
  int_min ≤ limit ≤ int_max → int_min ≤ cur ≤ int_max →
  int_min ≤ idx → idx + Z.max 0 (limit - cur) ≤ int_max →
  updateWorkers mr cur idx (repeat SendDone (Z.abs_nat (limit - cur)) ++ rest)
  = (limit, idx + Z.max 0 (limit - cur),
     repeat SendStop (Z.to_nat (cur - limit)) ++ (SendStart <$> seqZ idx (limit - cur)),
     rest, Some None).
Proof.
  intros limit Hl Hc Hi Hroom. unfold updateWorkers. fold limit.
  destruct (Z.le_gt_cases limit cur) as [Hle|Hgt].
  - rewrite (retire_all limit (Z.abs_nat (limit - cur)) cur rest) by lia.
    rewrite spawn_unfold. destruct (Z.ltb_spec limit limit); [lia|].
    replace (Z.max 0 (limit - cur)) with 0 by lia.
    replace (Z.abs_nat (limit - cur)) with (Z.to_nat (cur - limit)) by lia.
    rewrite (seqZ_nil idx (limit - cur)) by lia.
    do 4 f_equal; lia.
  - rewrite retire_unfold. destruct (Z.gtb_spec cur limit); [lia|].
    rewrite (spawn_all limit (Z.abs_nat (limit - cur)) cur idx rest) by lia.
    replace (Z.to_nat (cur - limit)) with 0%nat by lia.
    replace (Z.of_nat (Z.abs_nat (limit - cur))) with (limit - cur) by lia.
    replace (Z.max 0 (limit - cur)) with (limit - cur) by lia.
    reflexivity.
Qed.

Lemma updateWorkers_reaches_limit_witness :
  updateWorkers sampleCommand 0 7
    (repeat SendDone (Z.abs_nat (Concurrent (config sampleCommand) - 0)) ++ [RunSignal None])
  = (Concurrent (config sampleCommand),
     7 + Z.max 0 (Concurrent (config sampleCommand) - 0),
     repeat SendStop (Z.to_nat (0 - Concurrent (config sampleCommand)))
     ++ (SendStart <$> seqZ 7 (Concurrent (config sampleCommand) - 0)),
     [RunSignal None], Some None).
Proof.
  apply (updateWorkers_reaches_limit sampleCommand 0 7 [RunSignal None]);
    vm_compute; try split; discriminate.
Defined.

Example updateWorkers_start_two :
  updateWorkers sampleCommand 0 7 [SendDone; SendDone; SendDone]
  = (2, 9, [SendStart 7; SendStart 8], [SendDone], Some None).
Proof. reflexivity. Qed.

Example updateWorkers_nil_signal :
  updateWorkers sampleCommand 4 7 [SendDone; RunSignal None; SendDone]
  = (3, 7, [SendStop], [SendDone], Some None).
Proof. reflexivity. Qed.

End Pool_facts.

Section Run_loop_facts.
Import Go Common Commands.
Variable os_Stat : string → Time * option error.
Variable configOptions_loadConfig : RunCommand → RunCommand * option error.

(** Reloading leaves [Concurrent] as it was or as the loader set it. *)
Lemma loadConfig_Concurrent mr :
  Concurrent (config (fst (fst (loadConfig configOptions_loadConfig mr))))
  = Concurrent (config (fst (configOptions_loadConfig mr))).
Proof.
  unfold loadConfig. destruct (configOptions_loadConfig mr) as [mr1 [e|]]; simpl; [done|].
  by destruct (String.eqb (User mr1) "").
Qed.

Lemma checkConfig_Concurrent mr :
  let c := Concurrent (config (fst (fst (checkConfig os_Stat configOptions_loadConfig mr)))) in
  c = Concurrent (config mr) ∨ c = Concurrent (config (fst (configOptions_loadConfig mr))).
Proof.
  unfold checkConfig. destruct (os_Stat (ConfigFile mr)) as [t [e|]]; simpl; [by left|].
  destruct (Before (ModTime (config mr)) t); simpl; [|by left].
  pose proof (loadConfig_Concurrent mr) as H.
  destruct (loadConfig configOptions_loadConfig mr) as [[mr1 log] [e|]]; simpl in *; by right.
Qed.

Lemma updateConfig_Concurrent mr wake :
  let c := Concurrent (config (fst (fst (updateConfig os_Stat configOptions_loadConfig mr wake)))) in
  c = Concurrent (config mr) ∨ c = Concurrent (config (fst (configOptions_loadConfig mr))).
Proof.
  destruct wake as [| |sig]; simpl.
  - pose proof (checkConfig_Concurrent mr) as H.
    destruct (checkConfig os_Stat configOptions_loadConfig mr) as [[mr1 log] [e|]]; simpl in *; done.
  - pose proof (loadConfig_Concurrent mr) as H.
    destruct (loadConfig configOptions_loadConfig mr) as [[mr1 log] [e|]]; simpl in *; by right.
  - by left.
Qed.

(** The loader turns a state whose [Concurrent] is in range into one whose
    [Concurrent] is in range: a loader that fails and keeps the
    configuration it was given does so, and so does one that accepts only
    files with a [Concurrent] in range. *)
Hypothesis loader_ok :
  ∀ m, 0 ≤ Concurrent (config m) ≤ int_max →
       0 ≤ Concurrent (config (fst (configOptions_loadConfig m))) ≤ int_max.

Lemma Run_loop_counts rounds :
  ∀ mr cur idx, 0 ≤ Concurrent (config mr) ≤ int_max → 0 ≤ cur ≤ int_max →
  ∀ mr' c i sends exited,
    Run_loop os_Stat configOptions_loadConfig mr cur idx rounds = (mr', c, i, sends, exited) →
    c = cur + starts sends - stops sends ∧ 0 ≤ c ≤ int_max.
Proof.
  induction rounds as [|r rounds IH]; intros mr cur idx Hm Hc mr' c i sends exited; simpl.
  - intros [= <- <- <- <- <-]. change (starts []) with 0. change (stops []) with 0. lia.
  - destruct (seen r).
    { intros [= <- <- <- <- <-]. change (starts []) with 0. change (stops []) with 0. lia. }
    destruct (updateWorkers mr cur idx (selects r)) as [[[[c1 i1] s1] r1] sig] eqn:E.
    assert (Hmin : int_min ≤ 0) by (unfold int_min; lia).
    destruct (updateWorkers_counts mr cur idx (selects r) ltac:(lia) ltac:(lia) _ _ _ _ _ E)
      as (A1 & A2 & _).
    destruct sig as [[sig|]|]; try (intros [= <- <- <- <- <-]; lia).
    pose proof (updateConfig_Concurrent mr (wake r)) as HC.
    destruct (updateConfig os_Stat configOptions_loadConfig mr (wake r)) as [[mr1 log] [sig|]];
      simpl in HC; [intros [= <- <- <- <- <-]; lia|].
    destruct (Run_loop os_Stat configOptions_loadConfig mr1 c1 i1 rounds)
      as [[[[mr2 c2] i2] s2] ex2] eqn:E2.
    intros [= <- <- <- <- <-].
    assert (Hm1 : 0 ≤ Concurrent (config mr1) ≤ int_max).
    { destruct HC as [->| ->]; [done | by apply loader_ok]. }
    destruct (IH mr1 c1 i1 Hm1 ltac:(lia) _ _ _ _ _ E2) as [B1 B2].
    rewrite starts_app, stops_app. lia.
Qed.

Lemma stopAll_counts takers :
  ∀ cur, 0 ≤ cur ≤ int_max →
  ∀ c sends, stopAll cur takers = (c, sends) →
    starts sends = 0 ∧ c = cur - stops sends ∧ 0 ≤ c.
Proof.
  induction takers as [|takers IH]; intros cur Hc c sends; simpl.
  - destruct (cur >? 0); intros [= <- <-]; change (stops []) with 0;
      change (starts []) with 0; lia.
  - destruct (Z.gtb_spec cur 0).
    + rewrite int_wrap_id by (unfold int_min, int_max in *; lia).
      destruct (stopAll (cur - 1) takers) as [c1 s1] eqn:E. intros [= <- <-].
      destruct (IH (cur - 1) ltac:(lia) _ _ E) as (A1 & A2 & A3).
      rewrite starts_cons_stop, stops_cons_stop. lia.
    + intros [= <- <-]. change (stops []) with 0. change (starts []) with 0. lia.
Qed.

(** X3. As long as every configuration in effect has a [Concurrent]
    between 0 and the largest int (the first one has, and a reload of a
    configuration that has leaves one that has, which covers a reload that
    fails and keeps the configuration), [Run] never sends more stops than
    it has started workers, and when it gets to send [runFinished] it has
    sent exactly one stop for every worker it started. *)
Theorem Run_stops_every_started_worker (mr : RunCommand) (rounds : list Round)
    (takers : nat) :
  0 ≤ Concurrent (config mr) ≤ int_max →
  let '(sends, finished) := Run os_Stat configOptions_loadConfig mr rounds takers in
  stops sends ≤ starts sends ∧ (finished = true → stops sends = starts sends).
Proof.
  intros Hm. unfold Run.
  destruct (Run_loop os_Stat configOptions_loadConfig mr 0 0 rounds)
    as [[[[mr1 c1] i1] s1] ex] eqn:E.
  assert (Hmax : 0 ≤ int_max) by (unfold int_max; lia).
  destruct (Run_loop_counts rounds mr 0 0 Hm ltac:(lia) _ _ _ _ _ E) as [A1 A2].
  destruct ex; [|split; [lia | discriminate]].
  destruct (stopAll c1 takers) as [c2 s2] eqn:E2.
  destruct (stopAll_counts takers c1 A2 _ _ E2) as (B1 & B2 & B3).
  rewrite starts_app, stops_app. split; [lia|].
  destruct (Z.gtb_spec c2 0); simpl; [discriminate|]. intros _. lia.
Qed.

End Run_loop_facts.

Section Run_loop_samples.
Import Go Common Commands.

Lemma Run_stops_every_started_worker_witness :
  let load := loadFresh (λ _ : string, (sampleConfig, Some (mkError "bad file"))) in
  let rounds :=
    [ {| seen := None; selects := [SendDone; SendDone]; wake := CWTimer |};
      {| seen := None; selects := []; wake := CWReload |};
      {| seen := None; selects := []; wake := CWRunSignal (Some SIGTERM) |} ] in
  let '(sends, finished) := Run (λ _, (150, None)) load sampleCommand rounds 2 in
  stops sends ≤ starts sends ∧ (finished = true → stops sends = starts sends).
Proof.
  apply (Run_stops_every_started_worker (λ _, (150, None))
           (loadFresh (λ _ : string, (sampleConfig, Some (mkError "bad file"))))).
  - intros m Hm. exact Hm.
  - vm_compute. split; discriminate.
Defined.

Example Run_survives_failing_reloads :
  Run (λ _, (150, None))
      (loadFresh (λ _ : string, (sampleConfig, Some (mkError "bad file"))))
      sampleCommand
      [ {| seen := None; selects := [SendDone; SendDone]; wake := CWTimer |};
        {| seen := None; selects := []; wake := CWReload |};
        {| seen := None; selects := []; wake := CWRunSignal (Some SIGTERM) |} ] 2
  = ([SendStart 0; SendStart 1; SendStop; SendStop], true).
Proof. reflexivity. Qed.

Example Run_two_workers :
  Run (λ _, (150, None))
      (loadFresh (λ _ : string, (set_ModTime 150 sampleConfig, None)))
      sampleCommand
      [ {| seen := None; selects := [SendDone; SendDone]; wake := CWTimer |};
        {| seen := None; selects := []; wake := CWRunSignal (Some SIGTERM) |} ] 2
  = ([SendStart 0; SendStart 1; SendStop; SendStop], true).
Proof. reflexivity. Qed.

End Run_loop_samples.

(** ** commands: stopping, reloading and feeding *)

Section Stop_facts.
Import Go Common Commands.

Lemma graceful_nil mr wakeups mr1 :
  handleGracefulShutdown mr wakeups = (mr1, Some None) →
  GRunFinished ∈ wakeups ∧ stopSignal mr1 = Some SIGQUIT.
Proof.
  revert mr. induction wakeups as [|w wakeups IH]; intros mr; simpl.
  - case_bool_decide; intros [= <-]. 
  - case_bool_decide as Hq; [|intros [=]].
    destruct w as [s|].
    + intros H. destruct (IH _ H) as [Hin Hs]. split; [by apply list_elem_of_further | done].
    + intros [= <-]. split; [apply list_elem_of_here | done].
Qed.

(** X4. [Stop] returns nil only when [runFinished] was received: either
    during the graceful wait, and then the abort pump was never started, or
    as the first thing to happen in the forced phase, after the pump was
    started.  A timeout or a further signal never gives nil. *)
Theorem Stop_nil_needs_runFinished (mr mr' : RunCommand)
    (graceful : list GracefulWakeup) (first : Wakeup) (log : list Event) :
  Stop mr graceful first = (mr', log, Some None) →
  (GRunFinished ∈ graceful ∧ (EvGo "abortAllBuilds" ∉ log) ∧ stopSignal mr' = Some SIGQUIT)
  ∨ (first = WRunFinished ∧ EvGo "abortAllBuilds" ∈ log).
Proof.
  unfold Stop.
  destruct (handleGracefulShutdown mr graceful) as [mr1 [[e|]|]] eqn:E.
  - destruct first as [s| |]; simpl; intros [= <- <-]. right. split; [done | present].
  - intros [= <- <-]. left. destruct (graceful_nil _ _ _ E) as [Hin Hs].
    split; [done|]. split; [|done]. intros H. absent H.
  - intros [=].
Qed.

Lemma Stop_nil_needs_runFinished_witness :
  (GRunFinished ∈ [GSignal SIGQUIT; GRunFinished]
   ∧ (EvGo "abortAllBuilds" ∉ [EvGo "interruptRun"])
   ∧ stopSignal (set_stopSignal (Some SIGQUIT) (set_stopSignal (Some SIGQUIT) sampleCommand))
     = Some SIGQUIT)
  ∨ (WTimeout = WRunFinished ∧ EvGo "abortAllBuilds" ∈ [EvGo "interruptRun"]).
Proof.
  apply (Stop_nil_needs_runFinished (set_stopSignal (Some SIGQUIT) sampleCommand)
           (set_stopSignal (Some SIGQUIT) (set_stopSignal (Some SIGQUIT) sampleCommand))
           [GSignal SIGQUIT; GRunFinished] WTimeout [EvGo "interruptRun"]).
  reflexivity.
Defined.

Lemma graceful_escalates mr (n : nat) s rest :
  stopSignal mr = Some SIGQUIT → s ≠ SIGQUIT →
  handleGracefulShutdown mr (repeat (GSignal SIGQUIT) n ++ GSignal s :: rest)
  = (set_stopSignal (Some s) mr, Some (Some (mkError ("received: " +:+ Signal_String s)))).
Proof.
  intros Hq Hs. revert mr Hq. induction n as [|n IH]; intros mr Hq.
  - simpl. rewrite bool_decide_eq_true_2 by done.
    destruct rest; simpl; rewrite bool_decide_eq_false_2 by congruence; done.
  - simpl. rewrite bool_decide_eq_true_2 by done.
    rewrite (IH (set_stopSignal (Some SIGQUIT) mr)) by done. done.
Qed.

(** X5. While [Stop] waits gracefully (the stop signal is SIGQUIT), further
    SIGQUITs are absorbed; the first other signal ends the wait, is stored
    in [stopSignal], and [Stop] goes on to the forced phase and returns its
    result (never nil unless [runFinished] comes first there).  Wake-ups
    after that signal are not looked at. *)
Theorem Stop_escalates_on_other_signal (mr : RunCommand) (n : nat) (s : Signal)
    (rest : list GracefulWakeup) (first : Wakeup) :
  stopSignal mr = Some SIGQUIT → s ≠ SIGQUIT →
  Stop mr (repeat (GSignal SIGQUIT) n ++ GSignal s :: rest) first
  = (fst (fst (handleShutdown (set_stopSignal (Some s) mr) first)),
     EvGo "interruptRun" :: snd (fst (handleShutdown (set_stopSignal (Some s) mr) first)),
     Some (snd (handleShutdown (set_stopSignal (Some s) mr) first))).
Proof.
  intros Hq Hs. unfold Stop. rewrite (graceful_escalates mr n s rest Hq Hs).
  by destruct first.
Qed.

Lemma Stop_escalates_on_other_signal_witness :
  let mr := set_stopSignal (Some SIGQUIT) sampleCommand in
  Stop mr (repeat (GSignal SIGQUIT) 2 ++ GSignal SIGTERM :: [GRunFinished]) WTimeout
  = (fst (fst (handleShutdown (set_stopSignal (Some SIGTERM) mr) WTimeout)),
     EvGo "interruptRun" :: snd (fst (handleShutdown (set_stopSignal (Some SIGTERM) mr) WTimeout)),
     Some (snd (handleShutdown (set_stopSignal (Some SIGTERM) mr) WTimeout))).
Proof.
  apply (Stop_escalates_on_other_signal (set_stopSignal (Some SIGQUIT) sampleCommand)
           2 SIGTERM [GRunFinished] WTimeout).
  - reflexivity.
  - discriminate.
Defined.

End Stop_facts.

Section updateConfig_facts.
Import Go Common Commands.
Variable os_Stat : string → Time * option error.
Variable configOptions_loadConfig : RunCommand → RunCommand * option error.

(** X6. On an unchanged file (its modification time is not after the
    stored one) the periodic check of [updateConfig] does not call
    [loadConfig] and leaves the state alone, whereas the reload signal
    calls [loadConfig] all the same; in both cases, and whatever the load
    returns, [updateConfig] returns nil.  Only a value received from
    [runSignal] is returned, with the state untouched. *)
Theorem updateConfig_reload_is_unconditional (mr : RunCommand) (mtime : Time) :
  os_Stat (ConfigFile mr) = (mtime, None) →
  mtime ≤ ModTime (config mr) →
  let timer := updateConfig os_Stat configOptions_loadConfig mr CWTimer in
  let reload := updateConfig os_Stat configOptions_loadConfig mr CWReload in
  reloaded (snd (fst timer)) = false ∧ fst (fst timer) = mr ∧ snd timer = None ∧
  reloaded (snd (fst reload)) = true ∧ snd reload = None ∧
  ∀ s, updateConfig os_Stat configOptions_loadConfig mr (CWRunSignal s) = (mr, [], s).
Proof.
  intros Hstat Hle. simpl. unfold checkConfig. rewrite Hstat. unfold Before.
  destruct (Z.ltb_spec (ModTime (config mr)) mtime); [lia|]. simpl.
  split; [reflexivity|]. split; [done|]. split; [done|].
  pose proof (loadConfig_calls configOptions_loadConfig mr) as Hcall.
  destruct (loadConfig configOptions_loadConfig mr) as [[mr1 log] [e|]]; simpl in *.
  - split; [|done]. apply bool_decide_eq_true. apply bool_decide_eq_true in Hcall.
    apply elem_of_app. by left.
  - done.
Qed.

End updateConfig_facts.

Section Feeder_facts.
Import Go Common Commands.
Variable isHealthy : string → bool.
Variable GetExecutor : string → option ExecutorProvider.

Lemma feedRunners_pass_cons runner Runners :
  feedRunners_pass isHealthy GetExecutor (runner :: Runners)
  = fst (feedRunner isHealthy GetExecutor runner)
    ++ feedRunners_pass isHealthy GetExecutor Runners.
Proof. reflexivity. Qed.

(** X7. In one pass over [config.Runners] the feeder calls [Acquire], in
    list order, for exactly the healthy runners whose executor is
    registered; it sends, in the same order, exactly the slots of those
    whose [Acquire] returned no error; and it releases nothing, also not
    after a failed [Acquire]. *)
Theorem feedRunners_pass_in_order (Runners : list RunnerConfig) :
  let log := feedRunners_pass isHealthy GetExecutor Runners in
  omap acquiredRunner log
  = List.filter (λ r, isHealthy (UniqueID r)
                      && bool_decide (is_Some (GetExecutor (Executor r)))) Runners ∧
  omap sentRunner log
  = List.filter (λ r, isHealthy (UniqueID r)
                      && match GetExecutor (Executor r) with
                         | Some p => bool_decide (snd (Acquire p r) = None)
                         | None => false
                         end) Runners ∧
  List.filter isRelease log = [].
Proof.
  induction Runners as [|r Runners (IH1 & IH2 & IH3)]; [done|].
  cbn zeta. rewrite feedRunners_pass_cons, !omap_app, List.filter_app, IH1, IH2, IH3.
  cbn [List.filter]. unfold feedRunner.
  destruct (isHealthy (UniqueID r)); simpl; [|done].
  destruct (GetExecutor (Executor r)) as [p|]; simpl; [|done].
  destruct (Acquire p r) as [d [e|]]; simpl; done.
Qed.

End Feeder_facts.

Section updateConfig_samples.
Import Go Common Commands.

Lemma updateConfig_reload_is_unconditional_witness :
  let stat := λ _ : string, (100, @None error) in
  let load := loadFresh (λ _ : string, (sampleConfig, None)) in
  let timer := updateConfig stat load sampleCommand CWTimer in
  let reload := updateConfig stat load sampleCommand CWReload in
  reloaded (snd (fst timer)) = false ∧ fst (fst timer) = sampleCommand ∧ snd timer = None ∧
  reloaded (snd (fst reload)) = true ∧ snd reload = None ∧
  ∀ s, updateConfig stat load sampleCommand (CWRunSignal s) = (sampleCommand, [], s).
Proof.
  apply (updateConfig_reload_is_unconditional (λ _ : string, (100, @None error))
           (loadFresh (λ _ : string, (sampleConfig, None))) sampleCommand 100).
  - reflexivity.
  - vm_compute. discriminate.
Defined.

Example feedRunners_pass_sample :
  feedRunners_pass (λ id, negb (String.eqb id "bbbbbbbb-2")) (registry true)
    [runnerA; runnerB; runnerA]
  = [EvAcquire "shell" runnerA; EvSend "shell" runnerA 41;
     EvAcquire "shell" runnerA; EvSend "shell" runnerA 41].
Proof. reflexivity. Qed.

End updateConfig_samples.

(** ** common: more on AssignID *)

Section AssignID_more.
Import Go Common.

Lemma filter_snoc {A} (f : A → bool) (l : list A) (x : A) :
  List.filter f (l ++ [x]) = List.filter f l ++ (if f x then [x] else []).
Proof. rewrite List.filter_app. simpl. by destruct (f x). Qed.

Lemma mark_small b others acc o :
  marks_small b others acc → marks_small b (others ++ [o]) (mark b acc o).
Proof.
  destruct acc as [[g r] p]. intros (Sg & Sr & Sp).
  pose proof (size_insert_le g (GlobalID o) _ Sg).
  pose proof (size_insert_le r (RunnerID o) _ Sr).
  pose proof (size_insert_le p (ProjectRunnerID o) _ Sp).
  unfold mark, marks_small. rewrite !filter_snoc, !length_app.
  assert (HP : sameProject b o
               = sameRunner b o
                 && bool_decide (ProjectID (Response o) = ProjectID (Response b))) by done.
  rewrite HP. clear HP.
  assert (HR : sameRunner b o
               = bool_decide (ShortDescription (Runner o) = ShortDescription (Runner b)))
    by done.
  rewrite HR. clear HR.
  case_bool_decide; [case_bool_decide|]; simpl; lia.
Qed.

Lemma foldl_mark_small b done_ todo acc :
  marks_small b done_ acc → marks_small b (done_ ++ todo) (foldl (mark b) acc todo).
Proof.
  revert done_ acc. induction todo as [|o todo IH]; intros done_ acc H; simpl.
  - by rewrite app_nil_r.
  - replace (done_ ++ o :: todo) with ((done_ ++ [o]) ++ todo)
      by (by rewrite <- app_assoc).
    apply IH. by apply mark_small.
Qed.

Lemma markAll_small b others : marks_small b others (markAll b others).
Proof.
  unfold markAll. apply (foldl_mark_small b [] others (∅, ∅, ∅)).
  repeat split; simpl; rewrite map_size_empty; lia.
Qed.

Lemma filter_length_le {A} (f : A → bool) (l : list A) :
  (length (List.filter f l) ≤ length l)%nat.
Proof. induction l as [|x l IH]; simpl; [lia|]. destruct (f x); simpl; lia. Qed.

(** X8. The identifiers [AssignID] gives are small: [GlobalID] is at most
    the number of other builds, [RunnerID] at most the number of other
    builds of the same runner, and [ProjectRunnerID] at most the number of
    other builds of the same runner and project; none is negative. *)
Theorem AssignID_within_scope_size (fuel : nat) (b : Build) (otherBuilds : list Build) :
  (length otherBuilds < fuel)%nat →
  Z.of_nat (length otherBuilds) ≤ Go.int_max →
  ∃ b', AssignID fuel b otherBuilds = Some b' ∧
        0 ≤ GlobalID b' ≤ Z.of_nat (length otherBuilds) ∧
        0 ≤ RunnerID b' ≤ Z.of_nat (length (List.filter (sameRunner b) otherBuilds)) ∧
        0 ≤ ProjectRunnerID b'
          ≤ Z.of_nat (length (List.filter (sameProject b) otherBuilds)).
Proof.
  intros Hfuel Hmax. unfold AssignID.
  pose proof (markAll_ok b otherBuilds) as Hok.
  pose proof (markAll_small b otherBuilds) as Hsm.
  pose proof (filter_length_le (sameRunner b) otherBuilds).
  pose proof (filter_length_le (sameProject b) otherBuilds).
  destruct (markAll b otherBuilds) as [[g r] p].
  destruct Hok as (Hg & Hr & Hp & _). destruct Hsm as (Sg & Sr & Sp).
  destruct (firstFree_smallest g fuel _ _ Hg Sg Hfuel Hmax) as (ig & -> & [? _] & ?).
  destruct (firstFree_smallest r fuel (length (List.filter (sameRunner b) otherBuilds)) _
              Hr Sr ltac:(lia) ltac:(lia)) as (ir & -> & [? _] & ?).
  destruct (firstFree_smallest p fuel (length (List.filter (sameProject b) otherBuilds)) _
              Hp Sp ltac:(lia) ltac:(lia)) as (ip & -> & [? _] & ?).
  eexists. split; [reflexivity|]. simpl. lia.
Qed.

Lemma AssignID_within_scope_size_witness :
  ∃ b', AssignID 3 (mkBuild 10 7 runnerA 0 0 0)
          [mkBuild 1 7 runnerA 0 0 0; mkBuild 2 8 runnerB 1 0 0] = Some b' ∧
        0 ≤ GlobalID b'
          ≤ Z.of_nat (length [mkBuild 1 7 runnerA 0 0 0; mkBuild 2 8 runnerB 1 0 0]) ∧
        0 ≤ RunnerID b'
          ≤ Z.of_nat (length (List.filter (sameRunner (mkBuild 10 7 runnerA 0 0 0))
                                [mkBuild 1 7 runnerA 0 0 0; mkBuild 2 8 runnerB 1 0 0])) ∧
        0 ≤ ProjectRunnerID b'
          ≤ Z.of_nat (length (List.filter (sameProject (mkBuild 10 7 runnerA 0 0 0))
                                [mkBuild 1 7 runnerA 0 0 0; mkBuild 2 8 runnerB 1 0 0])).
Proof.
  apply (AssignID_within_scope_size 3 (mkBuild 10 7 runnerA 0 0 0)
           [mkBuild 1 7 runnerA 0 0 0; mkBuild 2 8 runnerB 1 0 0]).
  - simpl. lia.
  - vm_compute. discriminate.
Defined.

Lemma insert_true_comm (m : gmap Z bool) (i j : Z) :
  <[i := true]> (<[j := true]> m) = <[j := true]> (<[i := true]> m).
Proof.
  destruct (decide (i = j)) as [->|Hne]; [done|]. by apply insert_insert_ne.
Qed.

Lemma mark_comm b acc o1 o2 :
  mark b (mark b acc o1) o2 = mark b (mark b acc o2) o1.
Proof.
  destruct acc as [[g r] p]. unfold mark.
  repeat case_bool_decide; simpl;
    rewrite ?(insert_true_comm g (GlobalID o2) (GlobalID o1)),
            ?(insert_true_comm r (RunnerID o2) (RunnerID o1)),
            ?(insert_true_comm p (ProjectRunnerID o2) (ProjectRunnerID o1)); done.
Qed.

Lemma foldl_mark_perm b l l' :
  l ≡ₚ l' → ∀ acc, foldl (mark b) acc l = foldl (mark b) acc l'.
Proof.
  induction 1 as [|x l l' _ IH|x y l|l1 l2 l3 _ IH1 _ IH2]; intros acc; simpl.
  - done.
  - apply IH.
  - by rewrite mark_comm.
  - by rewrite IH1, IH2.
Qed.

(** X9. [AssignID] depends only on which other builds are in flight, not
    on the order in which they are passed: for any rearrangement of
    [otherBuilds] (and any bound on the scans) it gives the same result. *)
Theorem AssignID_order_independent (fuel : nat) (b : Build) (l l' : list Build) :
  l ≡ₚ l' → AssignID fuel b l = AssignID fuel b l'.
Proof.
  intros Hp. unfold AssignID, markAll. by rewrite (foldl_mark_perm b l l' Hp).
Qed.

Lemma AssignID_order_independent_witness :
  AssignID 4 (mkBuild 10 7 runnerA 0 0 0)
    [mkBuild 1 7 runnerA 0 0 0; mkBuild 2 8 runnerA 1 1 0]
  = AssignID 4 (mkBuild 10 7 runnerA 0 0 0)
      [mkBuild 2 8 runnerA 1 1 0; mkBuild 1 7 runnerA 0 0 0].
Proof.
  apply (AssignID_order_independent 4 (mkBuild 10 7 runnerA 0 0 0)
           [mkBuild 1 7 runnerA 0 0 0; mkBuild 2 8 runnerA 1 1 0]
           [mkBuild 2 8 runnerA 1 1 0; mkBuild 1 7 runnerA 0 0 0]).
  apply perm_swap.
Defined.

End AssignID_more.

(** ** common: ProjectUniqueName *)

Section ProjectUniqueName_facts.
Import Go Common.

Lemma append_cons (c : ascii) (s t : string) : String c s +:+ t = String c (s +:+ t).
Proof. reflexivity. Qed.

Lemma append_assoc_ (s t u : string) : (s +:+ t) +:+ u = s +:+ (t +:+ u).
Proof. induction s as [|c s IH]; [done|]. by rewrite !append_cons, IH. Qed.

Lemma append_inj_l (p a b : string) : p +:+ a = p +:+ b → a = b.
Proof.
  induction p as [|c p IH]; [done|]. rewrite !append_cons. intros [= H]. by apply IH.
Qed.

Lemma snoc_inj (c : ascii) (s s' : string) :
  s +:+ String c EmptyString = s' +:+ String c EmptyString → s = s'.
Proof.
  revert s'. induction s as [|a s IH]; intros [|a' s']; rewrite ?append_cons.
  - done.
  - intros [= _ H]. destruct s'; discriminate.
  - intros [= _ H]. destruct s; discriminate.
  - intros [= -> H]. f_equal. by apply IH.
Qed.

Lemma lacks_append (c : ascii) (s t : string) :
  lacks c (s +:+ t) = lacks c s && lacks c t.
Proof.
  induction s as [|d s IH]; [done|].
  rewrite append_cons. cbn [lacks]. by rewrite IH, andb_assoc.
Qed.

(** Two texts that agree and are cut at the first [c] have equal parts. *)
Lemma split_at_first (c : ascii) (x x' r r' : string) :
  lacks c x = true → lacks c x' = true →
  x +:+ String c r = x' +:+ String c r' → x = x' ∧ r = r'.
Proof.
  revert x'. induction x as [|a x IH]; intros [|a' x']; cbn [lacks]; rewrite ?append_cons.
  - intros _ _ [= ->]. done.
  - intros _ [Ha _]%andb_true_iff [= <- _].
    rewrite Ascii.eqb_refl in Ha. discriminate.
  - intros [Ha _]%andb_true_iff _ [= -> _].
    rewrite Ascii.eqb_refl in Ha. discriminate.
  - intros [_ Hx]%andb_true_iff [_ Hx']%andb_true_iff [= -> H].
    destruct (IH x' Hx Hx' H) as [-> ->]. done.
Qed.

Lemma lacks_c_uint (d : Decimal.uint) : lacks "c" (NilEmpty.string_of_uint d) = true.
Proof. induction d; simpl; done. Qed.

Lemma lacks_c_Itoa (n : Z) : lacks "c" (Itoa n) = true.
Proof.
  unfold Itoa, NilZero.string_of_int, NilZero.string_of_uint.
  destruct (Z.to_int n) as [d|d]; destruct d; simpl; try done; apply lacks_c_uint.
Qed.

Lemma Itoa_inj (n n' : Z) : Itoa n = Itoa n' → n = n'.
Proof.
  unfold Itoa. intros H. apply DecimalZ.to_int_inj.
  assert (Hn : ∀ z, Z.to_int z ≠ Decimal.Pos Decimal.Nil ∧ Z.to_int z ≠ Decimal.Neg Decimal.Nil).
  { intros [|p|p]; simpl; split; try discriminate;
      intros [= E]; by apply DecimalPos.Unsigned.to_uint_nonnil in E. }
  destruct (Hn n) as [H1 H2]. destruct (Hn n') as [H1' H2'].
  pose proof (NilZero.isi _ H1 H2) as E. pose proof (NilZero.isi _ H1' H2') as E'.
  rewrite H in E. rewrite E in E'. by injection E'.
Qed.

(** X10. For builds of one runner (the same short description),
    [ProjectUniqueName] tells apart every two builds that differ in project
    or in [ProjectRunnerID]: equal names mean equal project and equal
    [ProjectRunnerID]. *)
Theorem ProjectUniqueName_injective (b1 b2 : Build) :
  ShortDescription (Runner b1) = ShortDescription (Runner b2) →
  ProjectUniqueName b1 = ProjectUniqueName b2 →
  ProjectID (Response b1) = ProjectID (Response b2) ∧
  ProjectRunnerID b1 = ProjectRunnerID b2.
Proof.
  unfold ProjectUniqueName. intros -> H.
  do 3 apply append_inj_l in H.
  change ("-concurrent-" +:+ ?x) with (String "-" (String "c" ("oncurrent-" +:+ x))) in H.
  change (?p +:+ String "-" (String "c" ?r))
    with (p +:+ (String "-" EmptyString +:+ String "c" r)) in H.
  rewrite <- !append_assoc_ in H.
  apply split_at_first in H as [HP HC];
    [|by rewrite lacks_append, lacks_c_Itoa..].
  apply snoc_inj, Itoa_inj in HP. apply append_inj_l, Itoa_inj in HC. done.
Qed.

Lemma ProjectUniqueName_injective_witness :
  ProjectID (Response (mkBuild 1 7 runnerA 0 0 2))
  = ProjectID (Response (mkBuild 5 7 runnerA 3 1 2)) ∧
  ProjectRunnerID (mkBuild 1 7 runnerA 0 0 2) = ProjectRunnerID (mkBuild 5 7 runnerA 3 1 2).
Proof.
  apply (ProjectUniqueName_injective (mkBuild 1 7 runnerA 0 0 2) (mkBuild 5 7 runnerA 3 1 2));
    reflexivity.
Defined.

Example ProjectUniqueName_sample :
  ProjectUniqueName (mkBuild 1 7 runnerA 0 0 2) = "runner-aaaaaaaa-project-7-concurrent-2".
Proof. reflexivity. Qed.

End ProjectUniqueName_facts.

(** ** common: the build log *)

Section BuildLog_facts.
Import Go Common.
Variable ANSI_BOLD_CYAN ANSI_RESET : string.
Variable elapsed : nat → string.

Lemma append_nil_r (s : string) : s +:+ EmptyString = s.
Proof. induction s as [|c s IH]; [done|]. by rewrite append_cons, IH. Qed.

Lemma length_append (s t : string) :
  String.length (s +:+ t) = (String.length s + String.length t)%nat.
Proof. induction s as [|c s IH]; [done|]. rewrite append_cons. simpl. by rewrite IH. Qed.

Lemma int_wrap_range z : int_min ≤ int_wrap z ≤ int_max.
Proof.
  unfold int_wrap, int_min, int_max.
  pose proof (Z.mod_pos_bound (z + 2 ^ 63) (2 ^ 64) ltac:(lia)). lia.
Qed.

Lemma int_wrap_idem z : int_wrap (int_wrap z) = int_wrap z.
Proof. apply int_wrap_id, int_wrap_range. Qed.

Lemma SplitAfterLines_nonempty s : SplitAfterLines s ≠ [].
Proof.
  destruct s as [|c s]; simpl; [done|].
  destruct (Ascii.eqb c newline); [done|]. by destruct (SplitAfterLines s).
Qed.

(** Whether a text ends in a newline is decided by its last byte. *)
Lemma HasSuffix_nl_cons c l :
  HasSuffix (String c l) (String newline EmptyString)
  = match l with EmptyString => Ascii.eqb c newline | _ => HasSuffix l (String newline EmptyString) end.
Proof.
  destruct l as [|d l].
  - unfold HasSuffix. simpl. by destruct (Ascii.eqb c newline).
  - unfold HasSuffix. cbn [String.length].
    replace (S (S (String.length l)) - 1)%nat with (S (String.length l)) by lia.
    replace (S (String.length l) - 1)%nat with (String.length l) by lia.
    reflexivity.
Qed.

(** Writing a piece that starts with a byte other than a newline is
    writing the byte and then the rest of the piece. *)
Lemma writeLines_cons l n c line rest :
  Ascii.eqb c newline = false →
  writeLines ANSI_BOLD_CYAN ANSI_RESET elapsed l n (String c line :: rest)
  = writeLines ANSI_BOLD_CYAN ANSI_RESET elapsed
      {| buildLog := buildLog l +:+ String c EmptyString; clockReads := clockReads l |}
      (n + 1) (line :: rest).
Proof.
  intros Hc. cbn [writeLines Buffer_WriteString buildLog clockReads].
  rewrite HasSuffix_nl_cons.
  replace (n + Z.of_nat (String.length (String c line)))
    with (n + 1 + Z.of_nat (String.length line)) by (simpl String.length; lia).
  rewrite append_assoc_. change (String c EmptyString +:+ line) with (String c line).
  destruct line as [|d line]; [|reflexivity].
  rewrite Hc. reflexivity.
Qed.

Lemma writeLines_stamped data :
  ∀ l n, 0 ≤ n →
    n + Z.of_nat (String.length (stamped ANSI_BOLD_CYAN ANSI_RESET elapsed (clockReads l) data)) ≤ int_max →
    writeLines ANSI_BOLD_CYAN ANSI_RESET elapsed l n (SplitAfterLines data)
    = ({| buildLog := buildLog l +:+ stamped ANSI_BOLD_CYAN ANSI_RESET elapsed (clockReads l) data;
          clockReads := (newlines data + clockReads l)%nat |},
       n + Z.of_nat (String.length (stamped ANSI_BOLD_CYAN ANSI_RESET elapsed (clockReads l) data)), None).
Proof.
  assert (Hmin : int_min ≤ 0) by (unfold int_min; lia).
  induction data as [|c data IH]; intros l n Hn Hmax.
  - cbn. rewrite append_nil_r, Z.add_0_r, int_wrap_id by lia. by destruct l.
  - cbn [SplitAfterLines stamped newlines].
    destruct (Ascii.eqb c newline) eqn:Hc.
    + apply Ascii.eqb_eq in Hc. subst c.
      cbn [stamped] in Hmax. rewrite Ascii.eqb_refl in Hmax.
      cbn [String.length] in Hmax. rewrite length_append in Hmax.
      cbn [writeLines Buffer_WriteString writeTimestamp buildLog clockReads].
      rewrite HasSuffix_nl_cons, Ascii.eqb_refl.
      cbn [String.length]. rewrite (int_wrap_id (n + Z.of_nat 1)) by lia.
      rewrite int_wrap_id by lia.
      rewrite IH by (cbn [clockReads]; lia).
      cbn [buildLog clockReads String.length].
      rewrite !append_assoc_, !length_append.
      do 2 f_equal; first [lia | reflexivity | f_equal; first [reflexivity | lia]].
    + cbn [stamped] in Hmax. rewrite Hc in Hmax. cbn [String.length] in Hmax.
      pose proof (SplitAfterLines_nonempty data) as Hne.
      specialize (IH {| buildLog := buildLog l +:+ String c EmptyString;
                        clockReads := clockReads l |} (n + 1)).
      destruct (SplitAfterLines data) as [|line rest]; [done|].
      rewrite writeLines_cons by done. rewrite IH by (cbn [clockReads]; lia).
      cbn [buildLog clockReads String.length].
      rewrite !append_assoc_.
      do 2 f_equal; first [lia | reflexivity | f_equal; first [reflexivity | lia]].
Qed.

(** X11. [WriteString] appends the data to the log with one timestamp put
    right after each newline of the data and nowhere else; it reads the
    clock once per newline, never fails, and returns the number of bytes it
    appended, timestamps included (as long as that number fits an int). *)
Theorem WriteString_stamps_each_newline (l : LogState) (data : string) :
  Z.of_nat (String.length (stamped ANSI_BOLD_CYAN ANSI_RESET elapsed (clockReads l) data)) ≤ int_max →
  WriteString ANSI_BOLD_CYAN ANSI_RESET elapsed l data
  = ({| buildLog := buildLog l +:+ stamped ANSI_BOLD_CYAN ANSI_RESET elapsed (clockReads l) data;
        clockReads := (newlines data + clockReads l)%nat |},
     Z.of_nat (String.length (stamped ANSI_BOLD_CYAN ANSI_RESET elapsed (clockReads l) data)), None).
Proof.
  intros Hmax. unfold WriteString. by rewrite writeLines_stamped by lia.
Qed.

Lemma byte_not_newline (n : Z) : n mod 256 ≠ 10 → Ascii.eqb (byte n) newline = false.
Proof.
  intros Hn. apply Ascii.eqb_neq. intros E.
  apply (f_equal N_of_ascii) in E. unfold byte in E.
  rewrite N_ascii_embedding in E.
  - change (N_of_ascii newline) with 10%N in E. lia.
  - pose proof (Z.mod_pos_bound n 256 ltac:(lia)). lia.
Qed.

Lemma lacks_newline_encode (r : Z) :
  r mod 2 ^ 32 ≠ 10 → lacks newline (utf8_encode r) = true.
Proof.
  intros Hr. unfold utf8_encode.
  pose proof (Z.mod_pos_bound r (2 ^ 32) ltac:(lia)) as Hi.
  set (i := r mod 2 ^ 32) in *.
  destruct (Z.leb_spec i 127).
  { cbn [lacks]. rewrite byte_not_newline; [done|]. Z.div_mod_to_equations. lia. }
  destruct (Z.leb_spec i 2047).
  { cbn [lacks]. rewrite !byte_not_newline; [done|..]; Z.div_mod_to_equations; lia. }
  set (j := if (1114111 <? i) || ((55296 <=? i) && (i <=? 57343)) then 65533 else i).
  assert (Hj : 2048 ≤ j ≤ 1114111).
  { subst j. destruct (Z.ltb_spec 1114111 i); simpl; [lia|].
    destruct ((55296 <=? i) && (i <=? 57343)); lia. }
  clearbody j.
  destruct (Z.leb_spec j 65535);
    cbn [lacks]; rewrite !byte_not_newline; try done; Z.div_mod_to_equations; lia.
Qed.

Lemma length_encode (r : Z) : (1 ≤ String.length (utf8_encode r) ≤ 4)%nat.
Proof.
  unfold utf8_encode.
  destruct (_ <=? 127); [simpl; lia|]. destruct (_ <=? 2047); [simpl; lia|].
  destruct (_ <=? 65535); simpl; lia.
Qed.

Lemma SplitAfterLines_one_piece (s : string) :
  lacks newline s = true → SplitAfterLines s = [s].
Proof.
  induction s as [|c s IH]; [done|]. cbn [lacks SplitAfterLines].
  intros [Hc Hs]%andb_true_iff. apply negb_true_iff in Hc. rewrite Hc, (IH Hs). done.
Qed.

Lemma HasSuffix_nl_lacks (s : string) :
  lacks newline s = true → HasSuffix s (String newline EmptyString) = false.
Proof.
  induction s as [|c s IH]; [done|]. cbn [lacks].
  intros [Hc Hs]%andb_true_iff. apply negb_true_iff in Hc.
  rewrite HasSuffix_nl_cons. destruct s; [done | by apply IH].
Qed.

(** X12. For a rune that is not negative, [WriteRune(r)] leaves the log
    exactly as [WriteString(string(r))] does and returns the same count and
    error: the rune's UTF-8 bytes are appended, followed by a timestamp
    exactly when the rune is a newline. *)
Theorem WriteRune_as_WriteString (l : LogState) (r : Z) :
  0 ≤ r < 2 ^ 31 →
  WriteRune ANSI_BOLD_CYAN ANSI_RESET elapsed l r
  = WriteString ANSI_BOLD_CYAN ANSI_RESET elapsed l (utf8_encode r).
Proof.
  intros Hr.
  assert (Hmod : r mod 2 ^ 32 = r) by (apply Z.mod_small; lia).
  assert (Hbuf : Buffer_WriteRune l r = Buffer_WriteString l (utf8_encode r)).
  { unfold Buffer_WriteRune, utf8_encode. rewrite Hmod.
    destruct (Z.ltb_spec r 128); destruct (Z.leb_spec r 127); try lia; reflexivity. }
  unfold WriteRune, WriteString. rewrite Hbuf.
  destruct (Z.eqb_spec r 10) as [->|Hne].
  - replace (utf8_encode 10) with (String newline EmptyString) by (vm_compute; reflexivity).
    cbn [SplitAfterLines writeLines Buffer_WriteString writeTimestamp buildLog clockReads
         String.length].
    rewrite Ascii.eqb_refl.
    cbn [SplitAfterLines writeLines Buffer_WriteString writeTimestamp buildLog clockReads
         String.length].
    rewrite HasSuffix_nl_cons, Ascii.eqb_refl.
    change (HasSuffix EmptyString (String newline EmptyString)) with false.
    cbn iota. rewrite append_nil_r, !Z.add_0_r, int_wrap_idem.
    change (int_wrap (0 + Z.of_nat 1)) with (Z.of_nat 1). reflexivity.
  - assert (Hl : lacks newline (utf8_encode r) = true)
      by (apply lacks_newline_encode; lia).
    rewrite (SplitAfterLines_one_piece _ Hl).
    cbn [writeLines Buffer_WriteString]. rewrite (HasSuffix_nl_lacks _ Hl).
    rewrite int_wrap_id; [reflexivity|].
    pose proof (length_encode r). unfold int_min, int_max. lia.
Qed.

End BuildLog_facts.

Section BuildLog_samples.
Import Go Common.

Lemma WriteString_stamps_each_newline_witness :
  let l := {| buildLog := "$ make"; clockReads := 3 |} in
  let data := String newline (String "o" (String "k" (String newline EmptyString))) in
  WriteString "<" ">" (λ k, if (k =? 3)%nat then "1.5" else "2.0") l data
  = ({| buildLog := buildLog l
                    +:+ stamped "<" ">" (λ k, if (k =? 3)%nat then "1.5" else "2.0")
                          (clockReads l) data;
        clockReads := (newlines data + clockReads l)%nat |},
     Z.of_nat (String.length
                 (stamped "<" ">" (λ k, if (k =? 3)%nat then "1.5" else "2.0")
                    (clockReads l) data)), None).
Proof.
  apply (WriteString_stamps_each_newline "<" ">"
           (λ k, if (k =? 3)%nat then "1.5" else "2.0")
           {| buildLog := "$ make"; clockReads := 3 |}
           (String newline (String "o" (String "k" (String newline EmptyString))))).
  vm_compute. discriminate.
Defined.

Example WriteString_sample :
  WriteString "<" ">" (λ k, if (k =? 3)%nat then "1.5" else "2.0")
    {| buildLog := "$ make"; clockReads := 3 |}
    (String newline (String "o" (String "k" (String newline EmptyString))))
  = ({| buildLog := "$ make" +:+ String newline ("<1.5] >ok" +:+ String newline "<2.0] >");
        clockReads := 5 |}, 18, None).
Proof. reflexivity. Qed.

Lemma WriteRune_as_WriteString_witness :
  WriteRune "<" ">" (λ _, "0.1") {| buildLog := "a"; clockReads := 0 |} 233
  = WriteString "<" ">" (λ _, "0.1") {| buildLog := "a"; clockReads := 0 |} (utf8_encode 233).
Proof.
  apply (WriteRune_as_WriteString "<" ">" (λ _, "0.1") {| buildLog := "a"; clockReads := 0 |} 233).
  vm_compute. split; [discriminate | reflexivity].
Defined.

Example WriteRune_newline :
  WriteRune "<" ">" (λ _, "0.1") {| buildLog := "a"; clockReads := 0 |} 10
  = ({| buildLog := "a" +:+ String newline "<0.1] >"; clockReads := 1 |}, 8, None).
Proof. reflexivity. Qed.

Example utf8_encode_samples :
  utf8_encode 65 = "A" ∧ String.length (utf8_encode 233) = 2%nat ∧
  String.length (utf8_encode 8364) = 3%nat ∧ String.length (utf8_encode 128512) = 4%nat ∧
  utf8_encode 55296 = utf8_encode 65533.
Proof. repeat split; reflexivity. Qed.

End BuildLog_samples.

(** ** commands_helpers: more on the archive command *)

Section Archive_more.
Import Go CommandsHelpers.

Lemma compare_le_trans (s1 : string) :
  ∀ s2 s3, String.compare s1 s2 ≠ Gt → String.compare s2 s3 ≠ Gt →
           String.compare s1 s3 ≠ Gt.
Proof.
  induction s1 as [|c1 s1 IH]; intros [|c2 s2] [|c3 s3]; simpl; try done.
  unfold Ascii.compare.
  destruct (N.compare_spec (N_of_ascii c1) (N_of_ascii c2));
    destruct (N.compare_spec (N_of_ascii c2) (N_of_ascii c3));
    destruct (N.compare_spec (N_of_ascii c1) (N_of_ascii c3));
    try done; try lia.
  apply IH.
Qed.

#[local] Instance byteOrder_trans : Transitive byteOrder.
Proof.
  intros a b c. unfold byteOrder, String.leb. intros Hab Hbc.
  pose proof (compare_le_trans a b c) as H.
  destruct (String.compare a b); destruct (String.compare b c);
    destruct (String.compare a c); try done; exfalso; by apply H.
Qed.

#[local] Instance byteOrder_total : Total byteOrder.
Proof.
  intros a b. unfold byteOrder. destruct (String.leb_total a b) as [->| ->]; [by left | by right].
Qed.

#[local] Instance byteOrder_antisym : AntiSymm eq byteOrder.
Proof.
  intros a b Hab Hba. apply String.leb_antisym; by apply Is_true_eq_true.
Qed.

(** X13. [sortedFiles] lists every collected path exactly once, in
    ascending byte order (each path is at most every later one); and
    whatever order the iteration over the map produces the paths in,
    sorting gives this same list. *)
Theorem sortedFiles_sorted_once (c : ArchiveCommand) :
  StronglySorted byteOrder (sortedFiles c) ∧
  NoDup (sortedFiles c) ∧
  (∀ path, path ∈ sortedFiles c ↔ is_Some (files c !! path)) ∧
  (∀ keys, keys ≡ₚ fst <$> map_to_list (files c) →
           merge_sort byteOrder keys = sortedFiles c).
Proof.
  unfold sortedFiles. fold byteOrder.
  pose proof (merge_sort_Permutation byteOrder (fst <$> map_to_list (files c))) as Hp.
  split; [apply StronglySorted_merge_sort; apply _|].
  split; [rewrite Hp; apply NoDup_fst_map_to_list|].
  split.
  - intros path. rewrite Hp, list_elem_of_fmap. split.
    + intros ([k info] & -> & Hin). apply elem_of_map_to_list in Hin. eauto.
    + intros [info Hl]. exists (path, info). split; [done|].
      by apply elem_of_map_to_list.
  - intros keys Hk. apply (Sorted_unique byteOrder).
    + apply Sorted_merge_sort, _.
    + apply Sorted_merge_sort, _.
    + by rewrite !merge_sort_Permutation.
Qed.

(** Collecting keeps the record of [Lstat]. *)
Lemma add_recorded os c path : recorded os c → recorded os (fst (fst (add os c path None))).
Proof.
  intros Hc. unfold add. destruct (Lstat os path) as [info|e] eqn:E; simpl.
  - intros p i. cbn [set_files files]. rewrite lookup_insert.
    case_decide as Hp; [|apply Hc]. intros [= <-]. by subst p.
  - by destruct (IsNotExist os e).
Qed.

Lemma process_recorded os c m : recorded os c → recorded os (fst (fst (process os c m))).
Proof.
  intros Hc. unfold process. destruct (Abs os m) as [a [e|]]; simpl; [done|].
  destruct (Rel os (wd c) a) as [r [e|]]; simpl; [done|].
  destruct (HasPrefix r _); by apply add_recorded.
Qed.

Lemma walk_recorded os paths :
  ∀ c, recorded os c → recorded os (fst (fst (walk os c paths))).
Proof.
  induction paths as [|path rest IH]; intros c Hc; simpl; [done|].
  pose proof (process_recorded os c path Hc) as Hp.
  destruct (process os c path) as [[c1 log] [e|]]; simpl in *; [done|].
  specialize (IH c1 Hp). by destruct (walk os c1 rest) as [[c2 log'] err].
Qed.

Lemma processMatches_recorded os c matches :
  recorded os c → recorded os (fst (processMatches os c matches)).
Proof.
  unfold processMatches. intros Hc.
  assert (H : recorded os (fst (c, @nil Event))) by done.
  revert H. generalize (c, @nil Event). clear Hc.
  induction matches as [|m rest IH]; intros acc H; simpl; [done|].
  apply IH. destruct acc as [c0 log]. simpl in H.
  pose proof (walk_recorded os (Walk os m) c0 H) as Hw.
  by destruct (walk os c0 (Walk os m)) as [[c1 log'] [e|]].
Qed.

Lemma processPaths_recorded os c : recorded os c → recorded os (fst (processPaths os c)).
Proof.
  unfold processPaths. intros Hc.
  assert (H : recorded os (fst (c, @nil Event))) by done.
  revert H. generalize (c, @nil Event). generalize (Paths c). clear Hc.
  induction l as [|path rest IH]; intros acc H; simpl; [done|].
  apply IH. destruct acc as [c0 log]. simpl in H.
  destruct (Glob os path) as [matches [e|]]; simpl; [done|].
  pose proof (processMatches_recorded os c0 matches H) as Hm.
  by destruct (processMatches os c0 matches) as [c1 log'].
Qed.

Lemma processUntracked_recorded os c :
  recorded os c → recorded os (fst (processUntracked os c)).
Proof.
  unfold processUntracked. intros Hc. destruct (Untracked c); simpl; [|done].
  destruct (gitUntracked os) as [lines [e|]]; simpl; [done|].
  assert (H : recorded os (fst (c, @nil Event))) by done.
  revert H. generalize (c, @nil Event). clear Hc.
  induction lines as [|line rest IH]; intros acc H; simpl; [done|].
  apply IH. destruct acc as [c0 log]. simpl in H.
  pose proof (process_recorded os c0 line H) as Hp.
  by destruct (process os c0 line) as [[c1 log'] err].
Qed.

(** X14. Whatever the file system answers, every path in the file set
    that [Execute] has collected is one for which [Lstat] succeeded, and it
    is recorded with exactly the info [Lstat] gives for it; paths whose
    [Lstat] fails are never in the set. *)
Theorem collected_files_are_lstat (os : OS) (c : ArchiveCommand) (path : string) :
  match files (collected os c) !! path with
  | Some info => Lstat os path = inl info
  | None => True
  end.
Proof.
  assert (H : recorded os (collected os c)).
  { unfold collected. apply processUntracked_recorded, processPaths_recorded.
    intros p i. simpl. by rewrite lookup_empty. }
  destruct (files (collected os c) !! path) as [info|] eqn:E; [by apply H | done].
Qed.

(** Collecting leaves the listing flag alone. *)
Lemma warnings_quiet log :
  forallb isWarning log = true →
  createsArchive log = false ∧ printsList log = false ∧ printsEntries log = false.
Proof.
  intros H. repeat split; revert H; apply existsb_forallb_false; by intros [].
Qed.

Lemma listFiles_no_archive c :
  createsArchive (listFiles c) = false ∧ printsEntries (listFiles c) = false.
Proof.
  unfold listFiles. case_bool_decide; [done|].
  unfold createsArchive, printsEntries. induction (sortedFiles c); simpl; done.
Qed.

Lemma printsList_app log1 log2 :
  printsList (log1 ++ log2) = printsList log1 || printsList log2.
Proof. apply existsb_app. Qed.

Lemma printsEntries_app log1 log2 :
  printsEntries (log1 ++ log2) = printsEntries log1 || printsEntries log2.
Proof. apply existsb_app. Qed.

(** [archive] never prints the list of [listFiles], and its archiver prints
    entries only under [Verbose]. *)
Lemma archive_no_listing os c :
  printsList (archive os c) = false ∧
  (Verbose c = false → printsEntries (archive os c) = false).
Proof.
  assert (HP : printsList (fst (createArchive os c (sortedFiles c))) = false).
  { apply (existsb_forallb_false (archiverEvent (Verbose c)));
      [by intros [] | apply createArchive_events]. }
  assert (HE : Verbose c = false →
               printsEntries (fst (createArchive os c (sortedFiles c))) = false).
  { intros HV. pose proof (createArchive_events os c (sortedFiles c)) as H.
    rewrite HV in H. revert H. apply existsb_forallb_false.
    intros [] H; try done. destruct args as [|flags args]; [done|].
    simpl in *. by destruct (String.eqb flags "-zcPv"). }
  unfold archive. case_bool_decide; [done|].
  destruct (TempFile os (Dir os (File c)) "archive_") as [tempFile [e|]].
  { by destruct (NoProgress c). }
  destruct (createArchive os c (sortedFiles c)) as [log [e|]]; simpl in *.
  - rewrite !printsList_app, !printsEntries_app, HP. split.
    + by destruct (NoProgress c).
    + intros HV. rewrite (HE HV). by destruct (NoProgress c).
  - rewrite !printsList_app, !printsEntries_app, HP. split.
    + by destruct (NoProgress c), (Rename os tempFile (File c)).
    + intros HV. rewrite (HE HV).
      by destruct (NoProgress c), (Rename os tempFile (File c)).
Qed.

Lemma Execute_shape os c :
  ∃ log tail,
    Execute os c = log ++ tail ∧ forallb isWarning log = true ∧
    (tail = [] ∨ (∃ msg, tail = [EvFatal msg]) ∨ (∃ msg, tail = [EvInfo msg])
     ∨ (List (collected os c) = (if Verbose c then false else List c) ∧
        Verbose (collected os c) = Verbose c ∧
        tail = (if List (collected os c) then listFiles (collected os c)
                else archive os (collected os c)))).
Proof.
  unfold Execute, collected.
  set (c1 := if Verbose c then set_flags false true c else c).
  set (c2 := if List c1 then set_flags (List c1) true c1 else c1).
  assert (HL : List c2 = if Verbose c then false else List c).
  { subst c2 c1. destruct (Verbose c), (List c) eqn:E; simpl; rewrite ?E; done. }
  assert (HV : Verbose c2 = Verbose c).
  { subst c2 c1. destruct (Verbose c) eqn:EV, (List c) eqn:E; simpl; rewrite ?E; done. }
  destruct (Getwd os) as [w [e|]].
  { exists [], [EvFatal "Failed to get current working directory:"]. eauto 10. }
  destruct (String.eqb (File c2) "" && negb (List c2)).
  { exists [], [EvFatal "Missing archive file name!"]. eauto 10. }
  cbn [fst].
  set (c3 := set_wd_files w ∅ c2).
  pose proof (processPaths_warns os c3) as H1.
  pose proof (processPaths_List os c3) as L4.
  pose proof (processPaths_Verbose os c3) as V4.
  destruct (processPaths os c3) as [c4 log1]. simpl in *.
  pose proof (processUntracked_warns os c4) as H2.
  pose proof (processUntracked_List os c4) as L5.
  pose proof (processUntracked_Verbose os c4) as V5.
  destruct (processUntracked os c4) as [c5 log2]. simpl in *.
  assert (Hw : forallb isWarning (log1 ++ log2) = true) by (by rewrite forallb_app, H1, H2).
  assert (HL5 : List c5 = if Verbose c then false else List c) by congruence.
  assert (HV5 : Verbose c5 = Verbose c) by congruence.
  exists (log1 ++ log2).
  destruct (Stat os (File c5)) as [ai|e].
  - destruct (isChanged c5 (ModTime ai)); simpl.
    + eexists. split; [reflexivity|]. split; [done|]. right. right. right. done.
    + eexists. split; [reflexivity|]. split; [done|]. right. right. left. eauto.
  - destruct (IsNotExist os e); simpl.
    + eexists. split; [reflexivity|]. split; [done|]. right. right. right. done.
    + eexists. split; [reflexivity|]. split; [done|]. right. left. eauto.
Qed.

(** X15. [Execute] works in one of two modes: with [--list] and without
    [--verbose] it takes no step of writing an archive (no temporary
    file, no archiver, no rename, no entry printed); in every other case
    (also with [--list --verbose], since verbose turns listing off) it
    never prints the list of [listFiles], and the archivers print their
    entries (the lines of [createZipArchive], the [v] flag of [tar]) only
    under [--verbose]. *)
Theorem Execute_lists_or_archives_by_mode (os : OS) (c : ArchiveCommand) :
  if List c && negb (Verbose c)
  then createsArchive (Execute os c) = false ∧ printsEntries (Execute os c) = false
  else printsList (Execute os c) = false ∧
       (Verbose c = false → printsEntries (Execute os c) = false).
Proof.
  destruct (Execute_shape os c) as (log & tail & -> & Hw & Ht).
  destruct (warnings_quiet log Hw) as (Hc & Hp & He).
  rewrite printsList_app, !printsEntries_app, Hp, He.
  unfold createsArchive at 1. rewrite existsb_app. fold (createsArchive log).
  fold (createsArchive tail). rewrite Hc. simpl.
  destruct Ht as [->|[[msg ->]|[[msg ->]|(HL & HV & ->)]]];
    try (by destruct (List c && negb (Verbose c))).
  rewrite HL.
  destruct (archive_no_listing os (collected os c)) as [A1 A2]. rewrite HV in A2.
  destruct (Verbose c) eqn:EV; simpl.
  - rewrite andb_false_r. split; [done | discriminate].
  - rewrite andb_true_r. destruct (List c); [apply listFiles_no_archive|].
    split; [done | by intros _; apply A2].
Qed.

Example Execute_verbose_list_archives :
  Execute (sampleOS 65) (set_flags true false
                           {| Paths := ["vendor"]; Untracked := false; File := "out/cache.tgz";
                              Verbose := true; List := false; NoProgress := false; wd := "";
                              files := ∅; totalSize := 0 |})
  = [EvInfo "Creating archive"; EvMkdirAll "out"; EvTempFile "out" "archive_";
     EvExec "tar" ["-zcPv"; "-T"; "-"; "--no-recursion"]
       ("vendor" +:+ String newline ("vendor/a.go" +:+ String newline
          ("vendor/b.go" +:+ String newline "")));
     EvClose "out/archive_123456";
     EvRename "out/archive_123456" "out/cache.tgz" None;
     EvInfo "Done!";
     EvRemove "out/archive_123456"; EvClose "out/archive_123456"].
Proof. vm_compute. reflexivity. Qed.

(** X16. When nothing was collected, [Execute] neither lists nor writes an
    archive, whether the target archive exists or not. *)
Theorem Execute_nothing_collected (os : OS) (c : ArchiveCommand) :
  files (collected os c) = ∅ → lists_or_rebuilds (Execute os c) = false.
Proof.
  intros Hempty.
  destruct (Execute_shape os c) as (log & tail & -> & Hw & Ht).
  rewrite lists_or_rebuilds_app, (warnings_not_listing log Hw). simpl.
  destruct Ht as [->|[[msg ->]|[[msg ->]|(HL & HV & ->)]]]; try done.
  unfold listFiles, archive. rewrite Hempty, map_size_empty. simpl.
  by destruct (List (collected os c)).
Qed.

Lemma Execute_nothing_collected_witness :
  lists_or_rebuilds
    (Execute (sampleOS 65)
       {| Paths := []; Untracked := false; File := "out/cache.tgz"; Verbose := false;
          List := false; NoProgress := false; wd := ""; files := ∅; totalSize := 0 |})
  = false.
Proof.
  apply (Execute_nothing_collected (sampleOS 65)
           {| Paths := []; Untracked := false; File := "out/cache.tgz"; Verbose := false;
              List := false; NoProgress := false; wd := ""; files := ∅; totalSize := 0 |}).
  reflexivity.
Defined.

End Archive_more.

(** ** shells: cache commands *)

Section Cache_facts.
Import Go Common Shells.

Lemma foldl_path_args (args : list string) (paths : list string) :
  foldl (λ args path, args ++ ["--path"; path]) args paths
  = args ++ flat_map (λ path, ["--path"; path]) paths.
Proof.
  revert args. induction paths as [|p paths IH]; intros args; simpl.
  - by rewrite app_nil_r.
  - by rewrite IH, <- app_assoc.
Qed.

(** X17. [CommandArguments] gives ["--path"; p] for each path in order,
    then ["--untracked"] if set: two arguments per path plus at most one;
    and it is empty exactly when there is no path and [Untracked] is not
    set (the case in which the cache commands are skipped). *)
Theorem CommandArguments_shape (o : archivingOptions) :
  CommandArguments o
  = flat_map (λ path, ["--path"; path]) (Paths o)
    ++ (if Untracked o then ["--untracked"] else []) ∧
  length (CommandArguments o)
  = (2 * length (Paths o) + (if Untracked o then 1 else 0))%nat ∧
  (CommandArguments o = [] ↔ Paths o = [] ∧ Untracked o = false).
Proof.
  assert (Hshape : CommandArguments o
                   = flat_map (λ path, ["--path"; path]) (Paths o)
                     ++ (if Untracked o then ["--untracked"] else [])).
  { unfold CommandArguments. rewrite foldl_path_args. simpl.
    destruct (Untracked o); [done | by rewrite app_nil_r]. }
  split; [done|]. rewrite Hshape. split.
  - rewrite length_app. assert (Hl : ∀ l : list string,
      length (flat_map (λ path, ["--path"; path]) l) = (2 * length l)%nat).
    { induction l as [|p l IH]; simpl; [done|]. simpl in IH. lia. }
    rewrite Hl. destruct (Untracked o); simpl; lia.
  - destruct (Paths o) as [|p paths]; destruct (Untracked o); simpl; split;
      try done; intros [? ?]; done.
Qed.

Variable path_Join : list string → string.
Variable filepath_Rel : string → string → string * option error.
Variable ExpandValue : Build → string → string.
Variable getCacheUploadURL : Build → string → string.
Variable getCacheDownloadURL : Build → string → string.

(** X18. For the same build and cache options, [cacheExtractor] runs its
    command exactly when [cacheArchiver] runs its own, and both name the
    same cache file after [--file]; each runs at most one command.  That
    happens exactly when options are given, [RunnerCommand] is not empty,
    there is something to archive and [cacheFile] yields a key. *)
Theorem cache_restored_where_saved (options : option archivingOptions)
    (build : Build) (extra : BuildExtra) :
  let extractor := cacheExtractor path_Join filepath_Rel ExpandValue getCacheDownloadURL
                     options build extra in
  let archiver := cacheArchiver path_Join filepath_Rel ExpandValue getCacheUploadURL
                    options build extra in
  commandFile extractor = commandFile archiver ∧
  (length (commands extractor) ≤ 1)%nat ∧ (length (commands archiver) ≤ 1)%nat ∧
  (is_Some (commandFile archiver) ↔
   ∃ o, options = Some o ∧ RunnerCommand extra ≠ "" ∧ CommandArguments o ≠ [] ∧
        fst (cacheFile path_Join filepath_Rel ExpandValue build extra (Key o)) ≠ "").
Proof.
  unfold cacheExtractor, cacheArchiver. destruct options as [o|]; simpl.
  2:{ repeat split; try lia; [by intros [? ?] | by intros (? & ? & _)]. }
  destruct (String.eqb_spec (RunnerCommand extra) "") as [Hrc|Hrc]; simpl.
  { repeat split; try lia; [by intros [? ?] | by intros (? & [= <-] & ? & _)]. }
  destruct (cacheFile path_Join filepath_Rel ExpandValue build extra (Key o))
    as [key file] eqn:Ecf.
  case_bool_decide as Hargs.
  { apply length_zero_iff_nil in Hargs.
    destruct (String.eqb key ""); simpl;
      (repeat split; try lia; [by intros [? ?] | by intros (? & [= <-] & _ & ? & _)]). }
  assert (Hne : CommandArguments o ≠ []).
  { intros E. apply Hargs. by rewrite E. }
  destruct (String.eqb_spec key "") as [Hk|Hk]; simpl.
  { repeat split; try lia; [by intros [? ?]|].
    intros (? & [= <-] & _ & _ & Hf). rewrite Ecf in Hf. done. }
  destruct (String.eqb (getCacheDownloadURL build key) "");
    destruct (String.eqb (getCacheUploadURL build key) ""); simpl;
    (repeat split; try lia; [intros _; exists o; rewrite Ecf; done | intros _; eauto]).
Qed.

End Cache_facts.

Section Lines_facts.
Import Go Common Shells.
Variable TrimSpace : string → string.
Variable ToSlash : string → string.
Variable Runner_GetVariables : RunnerConfig → list BuildVariable.
Variable Expand : list BuildVariable → list BuildVariable.

Lemma SplitLines_length (s : string) : length (SplitLines s) = S (countNewlines s).
Proof.
  induction s as [|c s IH]; [done|]. cbn [SplitLines countNewlines].
  destruct (Ascii.eqb c newline); simpl; [by rewrite IH|].
  destruct (SplitLines s); simpl in *; [done | lia].
Qed.

(** X19. The script of [GenerateCommands] always has at least one command
    line with its error check, even for empty commands: the number of
    lines written, and of error checks, is one more than the number of
    newlines left in the commands after trimming. *)
Theorem GenerateCommands_line_count (build : Build) :
  let script := GenerateCommands TrimSpace ToSlash Runner_GetVariables Expand build in
  let n := S (countNewlines (TrimSpace (Commands (Response build)))) in
  length (omap lineText script) = n ∧ length (List.filter isCheck script) = n.
Proof.
  intros script n. subst script n. unfold GenerateCommands.
  rewrite foldl_writeCommand.
  pose proof (preamble_quiet ToSlash Runner_GetVariables Expand build) as Hq.
  destruct (quiet_no_lines _ Hq) as [Q1 Q2].
  destruct (lines_of_commands TrimSpace
              (SplitLines (TrimSpace (Commands (Response build))))) as [HL HC].
  rewrite omap_app, List.filter_app, !length_app, Q1, Q2, HL, HC, length_fmap.
  simpl. by rewrite SplitLines_length.
Qed.

End Lines_facts.
